(** * Suumo listing scraper: a model of [suumo_scrapper.py] and its properties

    The development embeds the field extractors of [SuumoScrapper]
    (src/suumo_scrapper.py).  Python values are modelled as the interpreter
    has them: a [str] is a sequence of Unicode code points, a [float] is an
    IEEE-754 binary64 number (the [spec_float] specification of the Rocq
    library at precision 53, round to nearest even), an [int] is unbounded.
    Exceptions are values of [exn]; a method of the scraper is a function of
    the instance that yields the final instance, what was printed and either
    a value or the exception raised.  The constructor fetches and parses the
    two pages; here an instance is given by its three attributes. *)

From Stdlib Require Import ZArith NArith List Bool Lia String Ascii.
From Stdlib Require Import SpecFloat.
Import ListNotations.

Set Implicit Arguments.
Local Open Scope Z_scope.

(* ================================================================== *)
(** * Python strings                                                     *)
(* ================================================================== *)

Module PyStr.

(** A character is a Unicode code point; a string a list of them. *)
Definition char := N.
Definition str := list char.

Definition char_eqb (a b : char) : bool := N.eqb a b.

(** ASCII literals of the source, as code points. *)
Fixpoint lit (s : string) : str :=
  match s with
  | EmptyString => []
  | String a s' => N_of_ascii a :: lit s'
  end.

Definition CR : char := 13%N.
Definition LF : char := 10%N.
Definition TAB : char := 9%N.
Definition SPACE : char := 32%N.
Definition DQUOTE : char := 34%N.
Definition MAN : char := 19975%N.   (* U+4E07, the ideograph "ten thousand" *)
Definition YEN : char := 20870%N.   (* U+5186, the ideograph "yen" *)

(** The suffix of prices on the site: ten thousand yen. *)
Definition man_en : str := [MAN; YEN].

Definition mem_char (c : char) (chars : str) : bool :=
  existsb (char_eqb c) chars.

(** [s.lstrip(chars)]: drop the leading characters that occur in [chars]. *)
Fixpoint lstrip (chars s : str) : str :=
  match s with
  | [] => []
  | c :: t => if mem_char c chars then lstrip chars t else s
  end.

(** [s.rstrip(chars)]: drop the trailing characters that occur in [chars]. *)
Definition rstrip (chars s : str) : str := rev (lstrip chars (rev s)).

(** [s.replace(old, new)] for a one-character [old]. *)
Definition replace (old : char) (new : str) (s : str) : str :=
  flat_map (fun c => if char_eqb c old then new else [c]) s.

(** [s.endswith(suffix)]. *)
Definition endswith (s suffix : str) : bool :=
  let n := (List.length s - List.length suffix)%nat in
  (List.length suffix <=? List.length s)%nat &&
  (if list_eq_dec N.eq_dec (skipn n s) suffix then true else false).

(** [s[:stop]] for any integer [stop]: a negative bound counts from the
    end, and the bounds are clamped to the string. *)
Definition slice_to (stop : Z) (s : str) : str :=
  let len := Z.of_nat (List.length s) in
  let stop' := if stop <? 0 then Z.max 0 (stop + len) else Z.min stop len in
  firstn (Z.to_nat stop') s.

(** [sep.join(parts)]. *)
Fixpoint join (sep : str) (parts : list str) : str :=
  match parts with
  | [] => []
  | [p] => p
  | p :: rest => p ++ sep ++ join sep rest
  end.

(** Unicode decimal digits (category Nd): each run of ten starts at the
    code point of its zero.  [float], [int] and the class [\d] of [re]
    accept all of them. *)
Definition decimal_zeros : list N :=
  [48; 1632; 1776; 1984; 2406; 2534; 2662; 2790; 2918; 3046; 3174; 3302;
   3430; 3558; 3664; 3792; 3872; 4160; 4240; 6112; 6160; 6470; 6608; 6784;
   6800; 6992; 7088; 7232; 7248; 42528; 43216; 43264; 43472; 43504; 43600;
   44016; 65296; 66720; 68912; 69734; 69872; 69942; 70096; 70384; 70736;
   70864; 71248; 71360; 71472; 71904; 72016; 72784; 73040; 73120; 92768;
   92864; 93008; 120782; 120792; 120802; 120812; 120822; 123200; 123632;
   125264; 130032]%N.

(** The value of a decimal digit, if the character is one. *)
Definition digit_value (c : char) : option Z :=
  match find (fun z => (z <=? c)%N && (c <? z + 10)%N) decimal_zeros with
  | Some z => Some (Z.of_N (c - z))
  | None => None
  end.

Definition is_digit (c : char) : bool :=
  match digit_value c with Some _ => true | None => false end.

(** White space in the sense of [str.isspace]. *)
Definition whitespace : str :=
  [9; 10; 11; 12; 13; 28; 29; 30; 31; 32; 133; 160; 5760; 8192; 8193; 8194;
   8195; 8196; 8197; 8198; 8199; 8200; 8201; 8202; 8232; 8233; 8239; 8287;
   12288]%N.

(** [s.strip()]. *)
Definition strip (s : str) : str := rstrip whitespace (lstrip whitespace s).

End PyStr.
Import PyStr.

(* ================================================================== *)
(** * Exceptions and results                                             *)
(* ================================================================== *)

Inductive exn : Type :=
| IndexError        (* a list index out of range *)
| AttributeError    (* an attribute of [None] *)
| ValueError        (* [float] or [int] of a malformed string, [int] of nan *)
| OverflowError     (* [int] of an infinity, [float] of too large an int *)
| ZeroDivisionError (* [/] by zero *).

Inductive result (A : Type) : Type :=
| Ok (a : A)
| Raise (e : exn).
Arguments Ok {A} a.
Arguments Raise {A} e.

Definition rbind {A B} (r : result A) (k : A -> result B) : result B :=
  match r with
  | Ok a => k a
  | Raise e => Raise e
  end.

Declare Scope result_scope.
Delimit Scope result_scope with result.
Notation "x <- c ;; k" := (rbind c (fun x => k))
  (at level 61, c at next level, right associativity) : result_scope.

(** [l[i]] for an index that is not negative. *)
Definition index {A} (l : list A) (i : nat) : result A :=
  match nth_error l i with
  | Some a => Ok a
  | None => Raise IndexError
  end.

(* ================================================================== *)
(** * Python floats and integers                                         *)
(* ================================================================== *)

Module PyFloat.

(** A [float] is a binary64 number. *)
Definition float := spec_float.
Definition prec : Z := 53.
Definition emax : Z := 1024.

Definition add : float -> float -> float := SFadd prec emax.
Definition mul : float -> float -> float := SFmul prec emax.
Definition div : float -> float -> float := SFdiv prec emax.

Definition is_zero (x : float) : bool :=
  match x with S754_zero _ => true | _ => false end.

(** [float(n)] of an integer: the nearest float, [OverflowError] beyond
    the range. *)
Definition of_int (n : Z) : result float :=
  match binary_normalize prec emax n 0 false with
  | S754_infinity _ => Raise OverflowError
  | x => Ok x
  end.

(** The float nearest to [n / d], negated when [neg]. *)
Definition of_ratio (neg : bool) (n d : positive) : float :=
  div (S754_finite neg n 0) (S754_finite false d 0).

(** The float nearest to [m * 10 ^ e10], negated when [neg]. *)
Definition of_decimal (neg : bool) (m e10 : Z) : float :=
  match m with
  | Zpos p =>
      if 0 <=? e10
      then of_ratio neg (p * Z.to_pos (10 ^ e10)) 1
      else of_ratio neg p (Z.to_pos (10 ^ (- e10)))
  | _ => S754_zero neg
  end.

(** [int(x)] of a float: truncation toward zero. *)
Definition to_int (x : float) : result Z :=
  match x with
  | S754_zero _ => Ok 0
  | S754_finite neg m e =>
      let mag := Z.shiftl (Zpos m) e in
      Ok (if neg then - mag else mag)
  | S754_infinity _ => Raise OverflowError
  | S754_nan => Raise ValueError
  end.

(** [x * n] and [x / n] of a float and an integer: the integer is
    converted first; a zero divisor raises. *)
Definition mul_int (x : float) (n : Z) : result float :=
  (y <- of_int n ;; Ok (mul x y))%result.

Definition truediv_int (x : float) (n : Z) : result float :=
  (y <- of_int n ;;
   if is_zero y then Raise ZeroDivisionError else Ok (div x y))%result.

(** ** Numerals *)

Definition UNDERSCORE : char := 95%N.
Definition DOT : char := 46%N.
Definition PLUS : char := 43%N.
Definition MINUS : char := 45%N.

(** The longest run of digits at the head of [s], single underscores
    allowed between two digits; [after_digit] tells whether the character
    before [s] was a digit. *)
Fixpoint digits_run (after_digit : bool) (s : str) : list Z * str :=
  match s with
  | [] => ([], [])
  | c :: t =>
      match digit_value c with
      | Some d => let '(ds, r) := digits_run true t in (d :: ds, r)
      | None =>
          if after_digit && char_eqb c UNDERSCORE then
            match t with
            | c2 :: _ => if is_digit c2 then digits_run false t else ([], s)
            | [] => ([], s)
            end
          else ([], s)
      end
  end.

Definition digits_value (ds : list Z) : Z :=
  fold_left (fun acc d => acc * 10 + d) ds 0.

(** An optional sign: whether it is a minus, and the rest. *)
Definition sign_of (s : str) : bool * str :=
  match s with
  | c :: t =>
      if char_eqb c MINUS then (true, t)
      else if char_eqb c PLUS then (false, t)
      else (false, s)
  | [] => (false, s)
  end.

(** ASCII lower case, for the names of the special values. *)
Definition lower (c : char) : char :=
  if (65 <=? c)%N && (c <=? 90)%N then (c + 32)%N else c.

Definition str_eqb (a b : str) : bool :=
  if list_eq_dec N.eq_dec a b then true else false.

(** The exponent part [e[+-]digits] at the head of [s], if there is one. *)
Definition exponent_of (s : str) : Z * str :=
  match s with
  | c :: t =>
      if char_eqb (lower c) 101%N then
        let '(neg, t') := sign_of t in
        match digits_run false t' with
        | ([], _) => (0, s)
        | (ds, r) => ((if neg then - digits_value ds else digits_value ds), r)
        end
      else (0, s)
  | [] => (0, s)
  end.

(** The white space that [float] and [int] skip around a numeral: the
    ASCII characters tab to carriage return and the space, and the white
    space beyond ASCII, which the conversion first turns into spaces.  The
    separators U+001C to U+001F, white space for [str.isspace], are not
    skipped. *)
Definition number_space : str :=
  [9; 10; 11; 12; 13; 32; 133; 160; 5760; 8192; 8193; 8194; 8195; 8196; 8197;
   8198; 8199; 8200; 8201; 8202; 8232; 8233; 8239; 8287; 12288]%N.

Definition strip_number (s : str) : str :=
  rstrip number_space (lstrip number_space s).

(** [float(s)] of a string: white space around the numeral is ignored;
    the numeral is [inf], [infinity] or [nan], or decimal digits with an
    optional fraction and an optional exponent; the result is the float
    nearest to the number written. *)
Definition of_str (s : str) : result float :=
  let '(neg, body) := sign_of (strip_number s) in
  let low := map lower body in
  if str_eqb low (lit "inf") || str_eqb low (lit "infinity")
  then Ok (S754_infinity neg)
  else if str_eqb low (lit "nan") then Ok S754_nan
  else
    let '(ip, r1) := digits_run false body in
    let '(fp, r2) :=
      match r1 with
      | c :: t => if char_eqb c DOT then digits_run false t else ([], r1)
      | [] => ([], r1)
      end in
    match ip ++ fp with
    | [] => Raise ValueError
    | ds =>
        let '(e10, r3) := exponent_of r2 in
        match r3 with
        | [] => Ok (of_decimal neg (digits_value ds)
                      (e10 - Z.of_nat (List.length fp)))
        | _ => Raise ValueError
        end
    end.

(** [int(s)] of a string, base ten. *)
Definition int_of_str (s : str) : result Z :=
  let '(neg, body) := sign_of (strip_number s) in
  match digits_run false body with
  | (d :: ds, []) =>
      let v := digits_value (d :: ds) in Ok (if neg then - v else v)
  | _ => Raise ValueError
  end.

(** Floats that are whole numbers, for statements. *)
Definition of_Z (n : Z) : float := binary_normalize prec emax n 0 false.

End PyFloat.

(* ================================================================== *)
(** * Regular expressions of [re]                                        *)
(* ================================================================== *)

Module Re.

(** One-character patterns: a literal, [.] and [\d]. *)
Inductive atom : Type :=
| Lit (c : char)
| Dot
| Digit.

Definition atom_match (a : atom) (c : char) : bool :=
  match a with
  | Lit x => char_eqb c x
  | Dot => negb (char_eqb c LF)
  | Digit => is_digit c
  end.

(** The patterns of the scraper: sequence, alternation, the greedy
    quantifiers [*], [+] and [?] on one-character patterns, and numbered
    groups. *)
Inductive regex : Type :=
| Eps
| Atom (a : atom)
| Seq (r1 r2 : regex)
| Alt (r1 r2 : regex)
| Star (a : atom)
| Plus (a : atom)
| Opt (a : atom)
| Group (n : nat) (r : regex).

(** A literal string as a pattern. *)
Fixpoint lits (s : str) : regex :=
  match s with
  | [] => Eps
  | c :: t => Seq (Atom (Lit c)) (lits t)
  end.

(** What the groups captured so far: the latest capture first. *)
Definition groups := list (nat * str).

Fixpoint lookup (n : nat) (g : groups) : option str :=
  match g with
  | [] => None
  | (k, v) :: g' => if Nat.eqb k n then Some v else lookup n g'
  end.

(** The ways [a*] can match at the head of [s], longest first: each is
    the text matched and the text left. *)
Fixpoint star_splits (a : atom) (s : str) : list (str * str) :=
  match s with
  | [] => [([], [])]
  | c :: t =>
      if atom_match a c
      then map (fun '(w, r) => (c :: w, r)) (star_splits a t) ++ [([], s)]
      else [([], s)]
  end.

(** The backtracking matcher: all the ways [r] can match at the head of
    [s], in the order in which the engine tries them.  Each is the text
    matched, the text left and the groups. *)
Fixpoint rmatch (r : regex) (s : str) (g : groups)
  : list (str * str * groups) :=
  match r with
  | Eps => [([], s, g)]
  | Atom a =>
      match s with
      | c :: t => if atom_match a c then [([c], t, g)] else []
      | [] => []
      end
  | Seq r1 r2 =>
      flat_map (fun '(w1, s1, g1) =>
                  map (fun '(w2, s2, g2) => (w1 ++ w2, s2, g2))
                      (rmatch r2 s1 g1))
               (rmatch r1 s g)
  | Alt r1 r2 => rmatch r1 s g ++ rmatch r2 s g
  | Star a => map (fun '(w, s') => (w, s', g)) (star_splits a s)
  | Plus a =>
      match s with
      | c :: t =>
          if atom_match a c
          then map (fun '(w, s') => (c :: w, s', g)) (star_splits a t)
          else []
      | [] => []
      end
  | Opt a =>
      match s with
      | c :: t =>
          if atom_match a c then [([c], t, g); ([], s, g)] else [([], s, g)]
      | [] => [([], s, g)]
      end
  | Group n r' =>
      map (fun '(w, s', g') => (w, s', (n, w) :: g')) (rmatch r' s g)
  end.

(** A match object: the whole match and the groups. *)
Record match_object : Type := { whole : str; captures : groups }.

(** [m.group(n)]: group 0 is the whole match; a group that took no part
    in the match is [None]. *)
Definition group (m : match_object) (n : nat) : option str :=
  match n with
  | O => Some (whole m)
  | _ => lookup n (captures m)
  end.

(** [re.search(r, s)]: the first way to match at the leftmost position
    that has one. *)
Fixpoint search (r : regex) (s : str) : option match_object :=
  match rmatch r s [] with
  | (w, _, g) :: _ => Some {| whole := w; captures := g |}
  | [] =>
      match s with
      | [] => None
      | _ :: t => search r t
      end
  end.

(** The language of a pattern. *)
Inductive matches : regex -> str -> Prop :=
| m_eps : matches Eps []
| m_atom a c : atom_match a c = true -> matches (Atom a) [c]
| m_seq r1 r2 w1 w2 :
    matches r1 w1 -> matches r2 w2 -> matches (Seq r1 r2) (w1 ++ w2)
| m_alt_l r1 r2 w : matches r1 w -> matches (Alt r1 r2) w
| m_alt_r r1 r2 w : matches r2 w -> matches (Alt r1 r2) w
| m_star a w : forallb (atom_match a) w = true -> matches (Star a) w
| m_plus a c w :
    forallb (atom_match a) (c :: w) = true -> matches (Plus a) (c :: w)
| m_opt_none a : matches (Opt a) []
| m_opt_some a c : atom_match a c = true -> matches (Opt a) [c]
| m_group n r w : matches r w -> matches (Group n r) w.

(** A text contains a substring that the pattern matches. *)
Definition contains_match (r : regex) (s : str) : Prop :=
  exists pre w post, s = pre ++ w ++ post /\ matches r w.

End Re.

(* ================================================================== *)
(** * Parsed documents                                                   *)
(* ================================================================== *)

Module Soup.

(** The classes of the strings of a page other than plain text. *)
Inductive string_class : Type :=
| CData
| Comment
| Declaration
| Doctype
| ProcessingInstruction
| Script
| Stylesheet
| TemplateString
| RubyTextString
| RubyParenthesisString.

Definition string_class_eqb (a b : string_class) : bool :=
  match a, b with
  | CData, CData | Comment, Comment | Declaration, Declaration
  | Doctype, Doctype | ProcessingInstruction, ProcessingInstruction
  | Script, Script | Stylesheet, Stylesheet
  | TemplateString, TemplateString | RubyTextString, RubyTextString
  | RubyParenthesisString, RubyParenthesisString => true
  | _, _ => false
  end.

(** A parsed page: plain text, strings of the other classes (the content
    of a script, a style sheet, a template or a ruby annotation, a comment
    and the like), and tags with their classes and children. *)
#[warnings="-register-all"]
Inductive node : Type :=
| Text (s : str)
| Special (k : string_class) (s : str)
| Tag (name : string) (classes : list string) (children : list node).

(** The strings under a node, in document order, each with its class
    ([None] for plain text). *)
Fixpoint strings (n : node) : list (option string_class * str) :=
  match n with
  | Text s => [(None, s)]
  | Special k s => [(Some k, s)]
  | Tag _ _ kids =>
      (fix go (l : list node) : list (option string_class * str) :=
         match l with
         | [] => []
         | k :: l' => strings k ++ go l'
         end) kids
  end.

(** The class of the strings that count as the text of a tag of this
    name, when it is not plain text. *)
Definition string_container (name : string) : option string_class :=
  if String.eqb name "script" then Some Script
  else if String.eqb name "style" then Some Stylesheet
  else if String.eqb name "template" then Some TemplateString
  else if String.eqb name "rt" then Some RubyTextString
  else if String.eqb name "rp" then Some RubyParenthesisString
  else None.

(** Whether a string of class [k] is part of the text of a tag of this
    name: for a script, style, template or ruby annotation tag the strings
    of its own class, for every other tag plain text and CDATA sections. *)
Definition interesting (name : string) (k : option string_class) : bool :=
  match string_container name, k with
  | Some c, Some k' => string_class_eqb c k'
  | Some _, None => false
  | None, None => true
  | None, Some CData => true
  | None, Some _ => false
  end.

(** [n.text], as Beautiful Soup 4 computes it in its current versions:
    the strings under the node that are interesting for it, in document
    order.  The content of a script, a style sheet, a template or a ruby
    annotation and the comments under a [div] are not part of its text. *)
Definition text (n : node) : str :=
  match n with
  | Text s => s
  | Special k s => if interesting "" (Some k) then s else []
  | Tag name _ _ =>
      List.concat
        (map snd (filter (fun ks => interesting name (fst ks)) (strings n)))
  end.

(** The descendants of a node, in document order. *)
Fixpoint descendants (n : node) : list node :=
  match n with
  | Text _ => []
  | Special _ _ => []
  | Tag _ _ kids =>
      (fix go (l : list node) : list node :=
         match l with
         | [] => []
         | k :: l' => k :: descendants k ++ go l'
         end) kids
  end.

Definition has_class (c : string) (n : node) : bool :=
  match n with
  | Tag _ cs _ => existsb (String.eqb c) cs
  | _ => false
  end.

Definition has_name (name : string) (n : node) : bool :=
  match n with
  | Tag nm _ _ => String.eqb name nm
  | _ => false
  end.

(** [n.find_all(name, class_=c)]. *)
Definition find_all (n : node) (name c : string) : list node :=
  filter (fun d => has_name name d && has_class c d) (descendants n).

(** [n.find(name, class_=c)]: the first one, or [None]. *)
Definition find (n : node) (name c : string) : option node :=
  hd_error (find_all n name c).

(** [n.find(class_=c)]: any tag name. *)
Definition find_class (n : node) (c : string) : option node :=
  hd_error (filter (has_class c) (descendants n)).

End Soup.

Import PyFloat Re Soup.
Local Open Scope string_scope.
Local Open Scope list_scope.
Local Open Scope Z_scope.

(* ================================================================== *)
(** * The scraper                                                        *)
(* ================================================================== *)

(** The patterns of the module: [LAT__REGEX = "lat": (\d+.\d+)] and
    [LONG_REGEX = "lng": (\d+.\d+)] with their double quotes, and
    [EXTRA_FEES_REGEX = (\d+.?\d*<man><en>|-)]. *)
Definition coordinate_number : regex :=
  Seq (Plus Digit) (Seq (Atom Dot) (Plus Digit)).

Definition LAT_KEY : str := DQUOTE :: lit "lat" ++ DQUOTE :: lit ": ".
Definition LONG_KEY : str := DQUOTE :: lit "lng" ++ DQUOTE :: lit ": ".

Definition LAT__REGEX : regex := Seq (lits LAT_KEY) (Group 1 coordinate_number).
Definition LONG_REGEX : regex := Seq (lits LONG_KEY) (Group 1 coordinate_number).

Definition EXTRA_FEES_REGEX : regex :=
  Group 1 (Alt (Seq (Plus Digit) (Seq (Opt Dot) (Seq (Star Digit) (lits man_en))))
               (Atom (Lit MINUS))).

(** The instance: the parsed listing page, the map page as [str] renders
    it, and the monthly rent cached by [scrap_price]. *)
Record SuumoScrapper : Type := {
  soup : node;
  map_soup : str;
  monthly_price : Z
}.

(** A number returned to the caller: an [int] or a [float]. *)
Inductive number : Type :=
| Int (n : Z)
| Float (x : float).

(** What a call leaves: the instance, the lines printed, and the value
    returned or the exception raised. *)
Definition outcome (A : Type) : Type :=
  (SuumoScrapper * list string * result A)%type.

Definition M (A : Type) : Type := SuumoScrapper -> outcome A.

Definition ret {A} (a : A) : M A := fun self => (self, [], Ok a).

Definition bind {A B} (m : M A) (k : A -> M B) : M B :=
  fun self =>
    let '(self1, out1, r) := m self in
    match r with
    | Ok a => let '(self2, out2, r2) := k a self1 in (self2, out1 ++ out2, r2)
    | Raise e => (self1, out1, Raise e)
    end.

Definition lift {A} (r : result A) : M A := fun self => (self, [], r).
Definition get_self : M SuumoScrapper := fun self => (self, [], Ok self).
Definition set_monthly_price (p : Z) : M unit :=
  fun self =>
    ({| soup := soup self; map_soup := map_soup self; monthly_price := p |},
     [], Ok tt).
Definition print (line : string) : M unit := fun self => (self, [line], Ok tt).

Declare Scope scrap_scope.
Delimit Scope scrap_scope with scrap.
Notation "x <- c ;; k" := (bind c (fun x => k))
  (at level 61, c at next level, right associativity) : scrap_scope.
Notation "c ;;; k" := (bind c (fun _ => k))
  (at level 61, right associativity) : scrap_scope.

(** An attribute or a method of a value that may be [None]. *)
Definition not_none {A} (o : option A) : result A :=
  match o with
  | Some a => Ok a
  | None => Raise AttributeError
  end.

(** The characters of the [lstrip] arguments of the source: a carriage
    return, a line feed and [n] tabs. *)
Definition crlf_tabs (n : nat) : str := CR :: LF :: repeat TAB n.

(** [self.soup.find_all('div', class_='property_data-body')]. *)
Definition property_data_bodies (s : node) : list node :=
  find_all s "div" "property_data-body".

Definition add_slash_url (url : str) : str :=
  if endswith url (lit "/") then url else url ++ lit "/".

(** Lines 29 and 30 of the constructor: the address of the map page,
    [f'{url}kankyo/'] after [url = self.add_slash_url(url)]. *)
Definition kankyo_url (url : str) : str :=
  add_slash_url url ++ lit "kankyo/".

Definition scrap_coordinates : M (str * str) :=
  (self <- get_self ;;
   lift (m1 <- not_none (search LAT__REGEX (map_soup self)) ;;
         lati <- not_none (group m1 1) ;;
         m2 <- not_none (search LONG_REGEX (map_soup self)) ;;
         longi <- not_none (group m2 1) ;;
         Ok (lati, longi))%result)%scrap.

Definition scrap_name : M str :=
  (self <- get_self ;;
   lift (name_raw <- not_none (find_class (soup self) "section_h1-header-title") ;;
         Ok (rstrip (repeat SPACE 24)
               (lstrip (CR :: LF :: repeat TAB 3) (text name_raw))))%result)%scrap.

(** Lines 80 to 82 of [scrap_price]: the rent in yen of the raw text. *)
Definition price_of_text (raw : str) : result Z :=
  (let monthly_price := rstrip man_en (lstrip (crlf_tabs 10) raw) in
   x <- of_str monthly_price ;;
   y <- mul_int x 10000 ;;
   to_int y)%result.

(** Line 88 of [scrap_price]: the monthly fees of the raw text. *)
Definition monthly_fees_of_text (raw : str) : result Z :=
  int_of_str (replace MINUS (lit "0") (rstrip man_en raw)).

Definition scrap_price : M (Z * Z) :=
  (self <- get_self ;;
   let monthly_price_raw :=
     match find (soup self) "div" "property_view_main-emphasis" with
     | Some n => Some n
     | None => find (soup self) "span" "property_view_note-emphasis"
     end in
   monthly_price <- lift (n <- not_none monthly_price_raw ;;
                          price_of_text (text n))%result ;;
   set_monthly_price monthly_price ;;;
   monthly_fees <- lift (monthly_fees_raw <- index (property_data_bodies (soup self)) 0 ;;
                         monthly_fees_of_text (text monthly_fees_raw))%result ;;
   ret (monthly_price, monthly_fees))%scrap.

(** The normalisation of a fee text: [float(t.rstrip(..).replace('-','0'))]. *)
Definition fee_of_text (t : str) : result float :=
  of_str (replace MINUS (lit "0") (rstrip man_en t)).

(** Lines 99 to 106 of [scrap_other_fees]: the four fees read from the
    page, in units of ten thousand yen. *)
Definition one_time_fees (s : node) : result (float * float * float * float) :=
  (block1 <- index (property_data_bodies s) 1 ;;
   let reikin_shikikin_raw := text block1 in
   reikin_shikinkin_res <- not_none (search EXTRA_FEES_REGEX reikin_shikikin_raw) ;;
   g0 <- not_none (group reikin_shikinkin_res 0) ;;
   reikin <- fee_of_text g0 ;;
   g1 <- not_none (group reikin_shikinkin_res 1) ;;
   shikikin <- fee_of_text g1 ;;
   block2 <- index (property_data_bodies s) 2 ;;
   hoken <- fee_of_text (lstrip (crlf_tabs 12) (text block2)) ;;
   block3 <- index (property_data_bodies s) 3 ;;
   other_fees <- fee_of_text (lstrip (lit "r" ++ LF :: repeat TAB 12) (text block3)) ;;
   Ok (reikin, shikikin, hoken, other_fees))%result.

Definition fees_total (fees : float * float * float * float) : float :=
  let '(reikin, shikikin, hoken, other_fees) := fees in
  add (add (add reikin shikikin) hoken) other_fees.

Definition no_price_message : string :=
  "Error, monthly price not correctly output so not possible to calculate fees in months".

Definition scrap_other_fees : M number :=
  (self <- get_self ;;
   fees <- lift (one_time_fees (soup self)) ;;
   let total := fees_total fees in
   if monthly_price self =? 0 then
     print no_price_message ;;;
     ret (Int 0)
   else
     total_months <- lift (yen <- mul_int total 10000 ;;
                           truediv_int yen (monthly_price self))%result ;;
     ret (Float total_months))%scrap.

(** The texts of the station blocks of the page: the blocks of class
    [property_view_detail-text] under the third block of class
    [property_view_detail-body]. *)
Definition station_texts (s : node) : result (list str) :=
  (soup_of_stations <- index (find_all s "div" "property_view_detail-body") 2 ;;
   Ok (map text (find_all soup_of_stations "div" "property_view_detail-text")))%result.

Definition scrap_closest_stations : M str :=
  (self <- get_self ;;
   stations_raw <- lift (station_texts (soup self)) ;;
   let stations :=
     fold_left (fun acc station => acc ++ station ++ [LF]) stations_raw [] in
   ret (slice_to (-1) stations))%scrap.

Definition scrap_bukken_type : M str :=
  (self <- get_self ;;
   lift (b <- index (property_data_bodies (soup self)) 7 ;;
         Ok (lstrip (crlf_tabs 11) (text b)))%result)%scrap.

Definition scrap_madori : M str :=
  (self <- get_self ;;
   lift (b <- index (property_data_bodies (soup self)) 4 ;;
         Ok (lstrip (crlf_tabs 11) (text b)))%result)%scrap.

(** Line 152 of [scrap_surface]: the area of the raw text. *)
Definition surface_of_text (raw : str) : result float :=
  of_str (rstrip (lit "m2") (lstrip (crlf_tabs 11) raw)).

Definition scrap_surface : M float :=
  (self <- get_self ;;
   lift (b <- index (property_data_bodies (soup self)) 5 ;;
         surface_of_text (text b))%result)%scrap.

Definition scrap_age : M str :=
  (self <- get_self ;;
   lift (b <- index (property_data_bodies (soup self)) 8 ;;
         Ok (lstrip (crlf_tabs 11) (text b)))%result)%scrap.

(* ================================================================== *)
(** * Notions used in the statements                                     *)
(* ================================================================== *)

(** The positional lookups that return the stripped text of a block, with
    the index each reads. *)
Definition positional_lookups : list (M str * nat) :=
  [(scrap_madori, 4%nat); (scrap_bukken_type, 7%nat); (scrap_age, 8%nat)].

(** A non-empty run of decimal digits. *)
Definition digits (w : str) : Prop :=
  w <> [] /\ forallb is_digit w = true.

(** The text does not go on with a digit. *)
Definition no_digit_ahead (s : str) : Prop :=
  match s with
  | [] => True
  | c :: _ => is_digit c = false
  end.

(** [s] begins with [key]. *)
Fixpoint starts_with (key s : str) : bool :=
  match key, s with
  | [], _ => true
  | k :: key', c :: s' => char_eqb c k && starts_with key' s'
  | _ :: _, [] => false
  end.

(** The position of the first occurrence of [key] in [s], if there is one. *)
Fixpoint first_occurrence (key s : str) : option nat :=
  if starts_with key s then Some O
  else match s with
       | [] => None
       | _ :: t => option_map S (first_occurrence key t)
       end.

(** The first occurrence of [key] in [s] is followed by [value], which
    ends there: [s] is [pre ++ key ++ value ++ post], no occurrence of
    [key] starts before the end of [pre], and [post] does not go on with a
    digit. *)
Definition first_item (key value s : str) : Prop :=
  exists pre post,
    s = pre ++ key ++ value ++ post /\
    first_occurrence key s = Some (List.length pre) /\
    no_digit_ahead post.

(** The pattern of a key followed by a group: [key(body)]. *)
Definition keyed (key : str) (n : nat) (body : regex) : regex :=
  Seq (lits key) (Group n body).

(** [value] stands in [s] right after an occurrence of [key]. *)
Definition follows (key value s : str) : Prop :=
  exists pre post, s = pre ++ key ++ value ++ post.

(** Sample pages. *)
Definition block (class : string) (t : str) : node :=
  Tag "div" [class] [Text t].

Definition listing_page (fields : list str) : node :=
  Tag "[document]" [] (map (block "property_data-body") fields).

Definition stations_page (stations : list str) : node :=
  Tag "[document]" []
    [block "property_view_detail-body" (lit "a");
     block "property_view_detail-body" (lit "b");
     Tag "div" ["property_view_detail-body"]
       (map (block "property_view_detail-text") stations)].

Definition sample (fields : list str) (rent : Z) : SuumoScrapper :=
  {| soup := listing_page fields; map_soup := []; monthly_price := rent |}.

(** The fields of a listing: fees, key money and deposit, guarantee,
    other fees, layout, area, aspect, type, age. *)
Definition sample_fields : list str :=
  [lit "5000" ++ [YEN]; lit "5" ++ man_en ++ lit "/-"; lit "5" ++ man_en;
   lit "-"; lit "1K"; lit "25.12m2"; lit "S"; lit "T"; lit "12"].

Definition map_sample : str :=
  lit "{" ++ LAT_KEY ++ lit "35.6895, " ++ LONG_KEY ++ lit "139.6917}".

(** A decimal numeral written with ASCII digits: the digits of the whole
    part, a point, the digits of the fraction. *)
Definition digit_char (d : Z) : char := Z.to_N (48 + d).

Definition numeral (whole_part fraction : list Z) : str :=
  map digit_char whole_part ++ DOT :: map digit_char fraction.

(** [round(n / d)] on exact numbers, ties to the even integer. *)
Definition round_ratio (n d : Z) : Z :=
  let q := n / d in
  let r := n mod d in
  match 2 * r ?= d with
  | Lt => q
  | Gt => q + 1
  | Eq => if Z.even q then q else q + 1
  end.

(** The price in yen that a numeral of ten thousands of yen stands for:
    [round(number * 10000)] on the exact number. *)
Definition yen_of_numeral (whole_part fraction : list Z) : Z :=
  round_ratio (digits_value (whole_part ++ fraction) * 10000)
              (10 ^ Z.of_nat (List.length fraction)).

(** The string begins, or ends, with a character of [chars]. *)
Definition starts_in (chars s : str) : bool :=
  match s with
  | [] => false
  | c :: _ => mem_char c chars
  end.

Definition ends_in (chars s : str) : bool := starts_in chars (rev s).

(** All the characters of the string are in [chars]. *)
Definition all_in (chars s : str) : bool :=
  forallb (fun c => mem_char c chars) s.

(** [s.split(sep)] for a one-character separator. *)
Fixpoint split (sep : char) (s : str) : list str :=
  match s with
  | [] => [[]]
  | c :: t =>
      if char_eqb c sep then [] :: split sep t
      else match split sep t with
           | piece :: pieces => (c :: piece) :: pieces
           | [] => [[c]]
           end
  end.

(** The sign bit of a float that is not a nan. *)
Definition is_negative (x : float) : bool :=
  match x with
  | S754_zero neg | S754_infinity neg | S754_finite neg _ _ => neg
  | S754_nan => false
  end.

(** The number that a run of decimal digits writes. *)
Definition number_of_digits (w : str) : Z :=
  digits_value
    (map (fun c => match digit_value c with Some d => d | None => 0 end) w).

(** One call after another on the same instance: [m1(); m2()]. *)
Definition and_then {A B} (m1 : M A) (m2 : M B) : M B :=
  bind m1 (fun _ => m2).

(** Lines 75 to 78 of [scrap_price]: the element that holds the rent, the
    first [div] of class [property_view_main-emphasis] or else the first
    [span] of class [property_view_note-emphasis]. *)
Definition price_element (s : node) : option node :=
  match find s "div" "property_view_main-emphasis" with
  | Some n => Some n
  | None => find s "span" "property_view_note-emphasis"
  end.

(** The instance with another cached rent. *)
Definition with_price (self : SuumoScrapper) (p : Z) : SuumoScrapper :=
  {| soup := soup self; map_soup := map_soup self; monthly_price := p |}.

(** Lines 111 and 112 of [scrap_other_fees]: the fees in months of a rent. *)
Definition months_of (total : float) (rent : Z) : result float :=
  (yen <- mul_int total 10000 ;; truediv_int yen rent)%result.

(** A sample page with a rent and monthly fees. *)
Definition price_page (price fees : str) : node :=
  Tag "[document]" []
    [block "property_view_main-emphasis" price;
     block "property_data-body" fees].

(** An amount as the site writes it: digits, or digits, a point and
    digits. *)
Definition amount_text (d : str) (fraction : option str) : str :=
  match fraction with
  | None => d
  | Some f => d ++ DOT :: f
  end.

Definition fraction_digits (fraction : option str) : bool :=
  match fraction with
  | None => true
  | Some f => forallb is_digit f
  end.

(** The letter r, which line 106 strips where a carriage return was meant. *)
Definition LETTER_R : char := 114%N.

(** The float of a whole number below [2 ^ 53]: the number itself, with
    its binary digits moved to the top of the mantissa. *)
Definition whole_float (n : Z) : float :=
  match n with
  | Zpos _ =>
      S754_finite false (Z.to_pos (n * 2 ^ (52 - Z.log2 n))) (Z.log2 n - 52)
  | _ => S754_zero false
  end.

(** The pattern matches [w] right after the prefix [pre] of [s], and no
    match of the pattern starts earlier in [s]. *)
Definition leftmost_match (r : regex) (s pre w : str) : Prop :=
  (exists post, s = pre ++ w ++ post) /\
  matches r w /\
  (forall pre' w' post',
     s = pre' ++ w' ++ post' -> matches r w' ->
     (List.length pre <= List.length pre')%nat).


(** A block whose text is followed by a script, and a listing whose fifth
    block is such a block. *)
Definition block_with_script (class : string) (t : str) : node :=
  Tag "div" [class] [Text t; Tag "script" [] [Special Script (lit "var x;")]].

Definition scripted_listing : node :=
  Tag "[document]" []
    (map (block "property_data-body") [lit "-"; lit "-"; lit "-"; lit "-"]
     ++ [block_with_script "property_data-body" (TAB :: lit "1K")]).

(** The class of the title of a listing. *)
Definition title_class : string := "section_h1-header-title".

(* ================================================================== *)
(** * Lemmas on strings and numerals                                     *)
(* ================================================================== *)

Unset Implicit Arguments.

Lemma index_ok {A} (l : list A) (i : nat) (a : A) :
  nth_error l i = Some a -> index l i = Ok a.
Proof. unfold index; intros ->; reflexivity. Qed.

Lemma index_out_of_range {A} (l : list A) (i : nat) :
  (List.length l <= i)%nat -> index l i = Raise IndexError.
Proof.
  intros H. unfold index.
  destruct (nth_error l i) eqn:E; [|reflexivity].
  apply nth_error_None in H. congruence.
Qed.

(** [float] of a string raises nothing but [ValueError]. *)
Lemma of_str_raises (s : str) (e : exn) :
  of_str s = Raise e -> e = ValueError.
Proof.
  unfold of_str.
  destruct (sign_of (strip_number s)) as [neg body].
  destruct (str_eqb _ _ || str_eqb _ _); [discriminate|].
  destruct (str_eqb _ _); [discriminate|].
  destruct (digits_run false body) as [ip r1].
  destruct (match r1 with [] => _ | _ :: _ => _ end) as [fp r2].
  destruct (ip ++ fp); [congruence|].
  destruct (exponent_of r2) as [e10 r3].
  destruct r3; congruence.
Qed.

Lemma fee_of_text_raises (t : str) (e : exn) :
  fee_of_text t = Raise e -> e = ValueError.
Proof. apply of_str_raises. Qed.

(** Reading the fees never divides. *)
Lemma one_time_fees_raises (s : node) (e : exn) :
  one_time_fees s = Raise e -> e <> ZeroDivisionError.
Proof.
  unfold one_time_fees, index, not_none, rbind.
  repeat match goal with
         | |- context [match nth_error ?l ?i with _ => _ end] =>
             destruct (nth_error l i)
         | |- context [match search ?r ?t with _ => _ end] =>
             destruct (search r t)
         | |- context [match group ?m ?n with _ => _ end] =>
             destruct (group m n)
         | |- context [match fee_of_text ?t with _ => _ end] =>
             let E := fresh "E" in
             destruct (fee_of_text t) eqn:E;
             [|apply fee_of_text_raises in E; subst]
         end; intros H; inversion H; discriminate.
Qed.

Lemma fold_stations (l : list str) (acc : str) :
  fold_left (fun acc station => acc ++ station ++ [LF]) l acc =
  acc ++ List.concat (map (fun station => station ++ [LF]) l).
Proof.
  revert acc. induction l as [|x l IH]; intros acc; simpl.
  - now rewrite app_nil_r.
  - rewrite IH. now rewrite <- !app_assoc.
Qed.

Lemma concat_lines_join (l : list str) :
  l <> [] ->
  List.concat (map (fun station => station ++ [LF]) l) = join [LF] l ++ [LF].
Proof.
  induction l as [|x l IH]; intros H; [congruence|].
  destruct l as [|y l].
  - simpl. now rewrite app_nil_r.
  - change (List.concat (map (fun station => station ++ [LF]) (x :: y :: l)))
      with ((x ++ [LF]) ++ List.concat (map (fun station => station ++ [LF]) (y :: l))).
    rewrite IH by congruence.
    change (join [LF] (x :: y :: l)) with (x ++ [LF] ++ join [LF] (y :: l)).
    now rewrite <- !app_assoc.
Qed.

(** [s[:-1]] of a string that ends with a character drops that character. *)
Lemma slice_drop_last (s : str) (c : char) :
  slice_to (-1) (s ++ [c]) = s.
Proof.
  unfold slice_to.
  rewrite length_app. simpl List.length.
  change (-1 <? 0) with true. cbv iota.
  replace (Z.to_nat (Z.max 0 (-1 + Z.of_nat (List.length s + 1))))
    with (List.length s + 0)%nat by lia.
  rewrite firstn_app_2. simpl. now rewrite app_nil_r.
Qed.

Lemma scrap_closest_stations_run (self : SuumoScrapper) (frags : list str) :
  station_texts (soup self) = Ok frags ->
  scrap_closest_stations self =
  (self, [],
   Ok (slice_to (-1) (List.concat (map (fun station => station ++ [LF]) frags)))).
Proof.
  intros H. unfold scrap_closest_stations, bind, get_self, lift, ret.
  rewrite H. rewrite fold_stations. reflexivity.
Qed.

Lemma positional_lookup_run (self : SuumoScrapper) (i : nat) :
  bind get_self
    (fun self0 =>
       lift (rbind (index (property_data_bodies (soup self0)) i)
                   (fun b => Ok (lstrip (crlf_tabs 11) (text b))))) self =
  (self, [],
   match nth_error (property_data_bodies (soup self)) i with
   | Some b => Ok (lstrip (crlf_tabs 11) (text b))
   | None => Raise IndexError
   end).
Proof.
  unfold bind, get_self, lift, index, rbind.
  destruct (nth_error _ i); reflexivity.
Qed.

(* ================================================================== *)
(** * Properties of the scraper                                          *)
(* ================================================================== *)

(** C1, as amended.  When the cached monthly rent is zero,
    [scrap_other_fees] does not divide by zero: the call never raises
    [ZeroDivisionError]; when the four fees are read from the page it
    prints the diagnostic line, leaves the instance as it was and returns
    the integer zero; when reading the fees raises, the call raises the
    same exception, which is not [ZeroDivisionError], and prints nothing. *)
Theorem scrap_other_fees_zero_rent (self : SuumoScrapper) :
  monthly_price self = 0 ->
  snd (scrap_other_fees self) <> Raise ZeroDivisionError /\
  (forall fees, one_time_fees (soup self) = Ok fees ->
     scrap_other_fees self = (self, [no_price_message], Ok (Int 0))) /\
  (forall e, one_time_fees (soup self) = Raise e ->
     scrap_other_fees self = (self, [], Raise e) /\ e <> ZeroDivisionError).
Proof.
  intros Hrent.
  unfold scrap_other_fees, bind, get_self, lift, print, ret.
  rewrite Hrent. simpl.
  destruct (one_time_fees (soup self)) as [fees|e] eqn:E; simpl.
  - split; [discriminate|]. split; [reflexivity|discriminate].
  - pose proof (one_time_fees_raises _ _ E) as N.
    split; [congruence|]. split; [discriminate|].
    intros e' H. inversion H; subst. split; [reflexivity|exact N].
Qed.

Lemma scrap_other_fees_zero_rent_witness :
  scrap_other_fees (sample sample_fields 0) =
  (sample sample_fields 0, [no_price_message], Ok (Int 0)).
Proof.
  eapply (proj1 (proj2 (scrap_other_fees_zero_rent (sample sample_fields 0)
                          eq_refl))).
  vm_compute. reflexivity.
Defined.

(** C1 as first stated fails: with a cached rent of zero, a page with a
    single block of class [property_data-body] makes the call raise
    [IndexError] before the rent is looked at; nothing is printed and
    nothing is returned. *)
Lemma scrap_other_fees_zero_rent_counterexample :
  monthly_price (sample [lit "-"] 0) = 0 /\
  scrap_other_fees (sample [lit "-"] 0) =
    (sample [lit "-"] 0, [], Raise IndexError) /\
  scrap_other_fees (sample [lit "-"] 0) <>
    (sample [lit "-"] 0, [no_price_message], Ok (Int 0)).
Proof. repeat split; try (vm_compute; reflexivity). discriminate. Qed.


(** C7.  For every non-empty list of station texts, [scrap_closest_stations]
    returns them joined by line feeds with no line feed at the end; for the
    texts "Station A" and "Station B" it returns "Station A", a line feed,
    "Station B". *)
Theorem scrap_closest_stations_joins (self : SuumoScrapper) :
  (forall frags, station_texts (soup self) = Ok frags -> frags <> [] ->
     scrap_closest_stations self = (self, [], Ok (join [LF] frags))) /\
  (station_texts (soup self) = Ok [lit "Station A"; lit "Station B"] ->
     scrap_closest_stations self =
     (self, [], Ok (lit "Station A" ++ LF :: lit "Station B"))).
Proof.
  assert (G : forall frags, station_texts (soup self) = Ok frags -> frags <> [] ->
     scrap_closest_stations self = (self, [], Ok (join [LF] frags))).
  { intros frags H Hne.
    rewrite (scrap_closest_stations_run self _ H).
    rewrite (concat_lines_join frags Hne), slice_drop_last. reflexivity. }
  split; [exact G|].
  intros H. rewrite (G _ H); [reflexivity|discriminate].
Qed.

Lemma scrap_closest_stations_joins_witness :
  let self := {| soup := stations_page [lit "Station A"; lit "Station B"];
                 map_soup := []; monthly_price := 0 |} in
  scrap_closest_stations self =
  (self, [], Ok (lit "Station A" ++ LF :: lit "Station B")).
Proof.
  intros self.
  apply (proj2 (scrap_closest_stations_joins self)).
  vm_compute. reflexivity.
Defined.

(** C8.  When the station container holds no station block,
    [scrap_closest_stations] returns the empty string and raises nothing. *)
Theorem scrap_closest_stations_empty (self : SuumoScrapper) :
  station_texts (soup self) = Ok [] ->
  scrap_closest_stations self = (self, [], Ok []).
Proof.
  intros H. rewrite (scrap_closest_stations_run self _ H). reflexivity.
Qed.

Lemma scrap_closest_stations_empty_witness :
  let self := {| soup := stations_page []; map_soup := []; monthly_price := 0 |} in
  scrap_closest_stations self = (self, [], Ok []).
Proof.
  intros self. apply (scrap_closest_stations_empty self).
  vm_compute. reflexivity.
Defined.

(** C9.  For each positional lookup ([scrap_madori] at index 4,
    [scrap_bukken_type] at 7, [scrap_age] at 8): when the page has a block
    at that index among the blocks of class [property_data-body], the call
    returns the text of that block with the leading carriage returns, line
    feeds and tabs stripped; when the page has too few blocks, the call
    raises [IndexError]. *)
Theorem positional_lookup_spec
    (lookup : M str) (i : nat) (self : SuumoScrapper) :
  In (lookup, i) positional_lookups ->
  (forall b, nth_error (property_data_bodies (soup self)) i = Some b ->
     lookup self = (self, [], Ok (lstrip [CR; LF; TAB] (text b)))) /\
  ((List.length (property_data_bodies (soup self)) <= i)%nat ->
     lookup self = (self, [], Raise IndexError)).
Proof.
  assert (S : forall t, lstrip (crlf_tabs 11) t = lstrip [CR; LF; TAB] t).
  { induction t as [|c t IH]; [reflexivity|].
    simpl. rewrite IH.
    destruct (char_eqb c CR), (char_eqb c LF), (char_eqb c TAB); reflexivity. }
  intros Hin.
  assert (E : lookup self =
    (self, [],
     match nth_error (property_data_bodies (soup self)) i with
     | Some b => Ok (lstrip (crlf_tabs 11) (text b))
     | None => Raise IndexError
     end)).
  { simpl in Hin.
    destruct Hin as [H|[H|[H|[]]]]; inversion H; subst;
      apply positional_lookup_run. }
  rewrite E. split.
  - intros b ->. now rewrite S.
  - intros Hlen. apply nth_error_None in Hlen. now rewrite Hlen.
Qed.

Lemma positional_lookup_spec_witness :
  (let self := {| soup := scripted_listing; map_soup := [];
                  monthly_price := 0 |} in
   scrap_madori self = (self, [], Ok (lit "1K"))) /\
  scrap_madori (sample [lit "a"; lit "b"; lit "c"] 0) =
    (sample [lit "a"; lit "b"; lit "c"] 0, [], Raise IndexError).
Proof.
  split.
  - intros self.
    apply (proj1 (positional_lookup_spec scrap_madori 4 self
                    (or_introl eq_refl))
             (block_with_script "property_data-body" (TAB :: lit "1K"))).
    reflexivity.
  - apply (proj2 (positional_lookup_spec scrap_madori 4
                    (sample [lit "a"; lit "b"; lit "c"] 0) (or_introl eq_refl))).
    vm_compute. lia.
Defined.

(** The whole match of a pattern that is one group is that group. *)
Lemma search_group_whole (n : nat) (r : regex) (raw : str) (m : match_object) :
  search (Group n r) raw = Some m -> lookup n (captures m) = Some (whole m).
Proof.
  induction raw as [|c raw IH]; simpl search.
  - destruct (rmatch r [] []) as [|[[w s'] g] l]; simpl; [discriminate|].
    intros H; inversion H; subst; simpl. now rewrite Nat.eqb_refl.
  - destruct (rmatch r (c :: raw) []) as [|[[w s'] g] l]; simpl; [exact IH|].
    intros H; inversion H; subst; simpl. now rewrite Nat.eqb_refl.
Qed.

(** C4.  Whenever the fee pattern is found in a text, group 0 and group 1
    of the match are the same string; so whenever [scrap_other_fees] reads
    its four fees, [shikikin] equals [reikin] and the first fee matched is
    counted twice in the total. *)
Theorem reikin_shikikin_same_match :
  (forall raw m, search EXTRA_FEES_REGEX raw = Some m ->
     group m 0 = group m 1) /\
  (forall s reikin shikikin hoken other_fees,
     one_time_fees s = Ok (reikin, shikikin, hoken, other_fees) ->
     shikikin = reikin /\
     fees_total (reikin, shikikin, hoken, other_fees) =
     add (add (add reikin reikin) hoken) other_fees).
Proof.
  assert (G : forall raw m, search EXTRA_FEES_REGEX raw = Some m ->
                            group m 0 = group m 1).
  { intros raw m H. apply search_group_whole in H. simpl. now rewrite H. }
  split; [exact G|].
  intros s reikin shikikin hoken other_fees.
  unfold one_time_fees.
  destruct (index (property_data_bodies s) 1) as [b1|]; [|discriminate].
  cbn [rbind].
  destruct (search EXTRA_FEES_REGEX (text b1)) as [m|] eqn:Em; [|discriminate].
  cbn [rbind not_none].
  rewrite <- (G _ _ Em). cbn [group rbind not_none].
  destruct (fee_of_text (whole m)) as [x|]; [|discriminate].
  cbn [rbind].
  destruct (index (property_data_bodies s) 2) as [b2|]; [|discriminate].
  cbn [rbind].
  destruct (fee_of_text (lstrip (crlf_tabs 12) (text b2))) as [h|]; [|discriminate].
  cbn [rbind].
  destruct (index (property_data_bodies s) 3) as [b3|]; [|discriminate].
  cbn [rbind].
  destruct (fee_of_text _) as [o|]; [|discriminate].
  cbn [rbind].
  intros H; inversion H; subst. split; reflexivity.
Qed.

Lemma reikin_shikikin_same_match_witness :
  (let m := {| whole := lit "5" ++ man_en;
               captures := [(1%nat, lit "5" ++ man_en)] |} in
   group m 0 = group m 1) /\
  (of_Z 5 = of_Z 5 /\
   fees_total (of_Z 5, of_Z 5, of_Z 5, of_Z 0) =
   add (add (add (of_Z 5) (of_Z 5)) (of_Z 5)) (of_Z 0)).
Proof.
  split.
  - apply (proj1 reikin_shikikin_same_match
             (lit "5" ++ man_en ++ lit "/-")).
    vm_compute. reflexivity.
  - apply (proj2 reikin_shikikin_same_match (listing_page sample_fields)).
    vm_compute. reflexivity.
Defined.

(** C10.  The placeholder dash is read as zero by every fee field: as the
    integer 0 by the monthly fees, as the float 0.0 by the key money and
    deposit match, the guarantee and the other fees; a page whose three
    one-time fee blocks are dashes gives four zero fees. *)
Theorem placeholder_dash_is_zero :
  monthly_fees_of_text (lit "-") = Ok 0 /\
  fee_of_text (lit "-") = Ok (of_Z 0) /\
  fee_of_text (lstrip (crlf_tabs 12) (lit "-")) = Ok (of_Z 0) /\
  fee_of_text (lstrip (lit "r" ++ LF :: repeat TAB 12) (lit "-")) = Ok (of_Z 0) /\
  search EXTRA_FEES_REGEX (lit "-") =
    Some {| whole := lit "-"; captures := [(1%nat, lit "-")] |} /\
  (forall s b1 b2 b3,
     nth_error (property_data_bodies s) 1 = Some b1 -> text b1 = lit "-" ->
     nth_error (property_data_bodies s) 2 = Some b2 -> text b2 = lit "-" ->
     nth_error (property_data_bodies s) 3 = Some b3 -> text b3 = lit "-" ->
     one_time_fees s = Ok (of_Z 0, of_Z 0, of_Z 0, of_Z 0)).
Proof.
  repeat (split; [vm_compute; reflexivity|]).
  intros s b1 b2 b3 H1 T1 H2 T2 H3 T3.
  unfold one_time_fees.
  rewrite (index_ok _ _ _ H1), (index_ok _ _ _ H2), (index_ok _ _ _ H3).
  cbn [rbind]. rewrite T1, T2, T3.
  vm_compute. reflexivity.
Qed.

Lemma placeholder_dash_is_zero_witness :
  one_time_fees (listing_page [lit "-"; lit "-"; lit "-"; lit "-"]) =
  Ok (of_Z 0, of_Z 0, of_Z 0, of_Z 0).
Proof.
  apply (proj2 (proj2 (proj2 (proj2 (proj2 placeholder_dash_is_zero))))
           (listing_page [lit "-"; lit "-"; lit "-"; lit "-"])
           (block "property_data-body" (lit "-"))
           (block "property_data-body" (lit "-"))
           (block "property_data-body" (lit "-")));
    reflexivity.
Defined.

(** C2.  The price conversion of [scrap_price] is not [round(number *
    10000)] on every numeral: for the text "5.02" followed by the suffix of
    ten thousands of yen, a rent of 50,200 yen, it yields 50199, and
    [scrap_price] returns and caches that value. *)
Theorem price_of_text_truncates :
  price_of_text (numeral [5] [0; 2] ++ man_en) = Ok 50199 /\
  yen_of_numeral [5] [0; 2] = 50200 /\
  (let self :=
     {| soup := Tag "[document]" []
                  [block "property_view_main-emphasis" (numeral [5] [0; 2] ++ man_en);
                   block "property_data-body" (lit "5000" ++ [YEN])];
        map_soup := []; monthly_price := 0 |} in
   scrap_price self =
   ({| soup := soup self; map_soup := []; monthly_price := 50199 |},
    [], Ok (50199, 5000))).
Proof. repeat split; vm_compute; reflexivity. Qed.

(** Where the numeral does not end with the letter m or the digit 2 and
    does not begin with a carriage return, a line feed or a tab, the
    suffix is all that is stripped. *)
Lemma surface_of_text_keeps (c : char) (mid : str) (l : char) :
  mem_char c [CR; LF; TAB] = false ->
  mem_char l (lit "m2") = false ->
  surface_of_text (c :: mid ++ l :: lit "m2") = of_str (c :: mid ++ [l]).
Proof.
  intros Hc Hl. unfold surface_of_text. f_equal.
  assert (L : lstrip (crlf_tabs 11) (c :: mid ++ l :: lit "m2") =
              c :: mid ++ l :: lit "m2").
  { simpl in Hc |- *.
    destruct (char_eqb c CR), (char_eqb c LF), (char_eqb c TAB);
      try discriminate; reflexivity. }
  rewrite L. unfold rstrip.
  change (c :: mid ++ l :: lit "m2") with ((c :: mid) ++ [l] ++ lit "m2").
  rewrite !rev_app_distr. cbn [rev lit app].
  change (N_of_ascii "2") with 50%N. change (N_of_ascii "m") with 109%N.
  cbn [lstrip mem_char existsb char_eqb N.eqb Pos.eqb orb app].
  simpl in Hl. change (N_of_ascii "m") with 109%N in Hl.
  change (N_of_ascii "2") with 50%N in Hl.
  unfold mem_char. cbn [existsb]. rewrite Hl.
  cbn [rev]. rewrite !rev_app_distr, rev_involutive. reflexivity.
Qed.

(** C5.  Stripping the area suffix with [rstrip('m2')] does not leave the
    numeral on every text: "25.12m2" is read as the float 25.1, which is not
    the float 25.12, and "22m2" leaves nothing to parse, so that
    [scrap_surface] raises [ValueError]. *)
Theorem surface_of_text_eats_twos :
  surface_of_text (lit "25.12m2") = of_str (lit "25.1") /\
  of_str (lit "25.1") <> of_str (lit "25.12") /\
  surface_of_text (lit "22m2") = Raise ValueError /\
  scrap_surface (sample sample_fields 0) =
    (sample sample_fields 0, [], of_str (lit "25.1")).
Proof. repeat split; vm_compute; try reflexivity; discriminate. Qed.

(* ================================================================== *)
(** * The matcher and the language of a pattern                          *)
(* ================================================================== *)

Section Matcher.

Variable a : atom.

(** The splits of [a*]: every prefix made of characters of [a]. *)
Lemma star_splits_sound (s w s' : str) :
  In (w, s') (star_splits a s) ->
  s = w ++ s' /\ forallb (atom_match a) w = true.
Proof.
  revert w s'. induction s as [|c t IH]; intros w s'; simpl.
  - intros [H|[]]. inversion H. split; reflexivity.
  - destruct (atom_match a c) eqn:Ec.
    + rewrite in_app_iff, in_map_iff.
      intros [[[w0 r0] [H Hin]]|[H|[]]].
      * inversion H; subst. destruct (IH _ _ Hin) as [-> Hall].
        split; [reflexivity|]. simpl. now rewrite Ec.
      * inversion H. split; reflexivity.
    + intros [H|[]]. inversion H. split; reflexivity.
Qed.

Lemma star_splits_complete (w rest : str) :
  forallb (atom_match a) w = true ->
  In (w, rest) (star_splits a (w ++ rest)).
Proof.
  induction w as [|c w IH]; simpl.
  - intros _. destruct rest as [|c t]; simpl; [now left|].
    destruct (atom_match a c); [|now left].
    apply in_or_app. right. now left.
  - intros H. apply andb_prop in H as [Hc Hw]. rewrite Hc.
    apply in_or_app. left.
    apply in_map_iff. exists (w, rest). split; [reflexivity|auto].
Qed.

(** The first split is the longest run of characters of [a]. *)
Lemma star_splits_head (w rest : str) :
  forallb (atom_match a) w = true ->
  match rest with [] => True | c :: _ => atom_match a c = false end ->
  exists tl, star_splits a (w ++ rest) = (w, rest) :: tl.
Proof.
  intros Hw Hrest. induction w as [|c w IH]; simpl.
  - destruct rest as [|c t]; simpl; [now exists []|].
    rewrite Hrest. now exists [].
  - simpl in Hw. apply andb_prop in Hw as [Hc Hw]. rewrite Hc.
    destruct (IH Hw) as [tl ->]. simpl. eexists. reflexivity.
Qed.

Lemma plus_head (w rest : str) (g : groups) :
  w <> [] ->
  forallb (atom_match a) w = true ->
  match rest with [] => True | c :: _ => atom_match a c = false end ->
  exists tl, rmatch (Plus a) (w ++ rest) g = (w, rest, g) :: tl.
Proof.
  intros Hne Hw Hrest. destruct w as [|c w]; [congruence|].
  simpl in Hw. apply andb_prop in Hw as [Hc Hw].
  simpl. rewrite Hc.
  destruct (star_splits_head w rest Hw Hrest) as [tl ->].
  simpl. eexists. reflexivity.
Qed.

End Matcher.

(** Every way the matcher finds is a prefix in the language of the
    pattern. *)
Lemma rmatch_sound (r : regex) :
  forall s g w s' g',
    In (w, s', g') (rmatch r s g) -> s = w ++ s' /\ matches r w.
Proof.
  induction r as [|a|r1 IH1 r2 IH2|r1 IH1 r2 IH2|a|a|a|n r IH];
    intros s g w s' g'; simpl.
  - intros [H|[]]. inversion H; subst. split; [reflexivity|constructor].
  - destruct s as [|c t]; [intros []|].
    destruct (atom_match a c) eqn:Ec; [|intros []].
    intros [H|[]]. inversion H; subst. split; [reflexivity|now constructor].
  - rewrite in_flat_map. intros [[[w1 s1] g1] [H1 H2]].
    apply in_map_iff in H2 as [[[w2 s2] g2] [E H2]]. inversion E; subst.
    destruct (IH1 _ _ _ _ _ H1) as [-> M1].
    destruct (IH2 _ _ _ _ _ H2) as [-> M2].
    split; [now rewrite app_assoc|now constructor].
  - rewrite in_app_iff. intros [H|H].
    + destruct (IH1 _ _ _ _ _ H) as [-> M1]. split; [reflexivity|now apply m_alt_l].
    + destruct (IH2 _ _ _ _ _ H) as [-> M2]. split; [reflexivity|now apply m_alt_r].
  - rewrite in_map_iff. intros [[w0 s0] [E H]]. inversion E; subst.
    apply star_splits_sound in H as [-> H]. split; [reflexivity|now constructor].
  - destruct s as [|c t]; [intros []|].
    destruct (atom_match a c) eqn:Ec; [|intros []].
    rewrite in_map_iff. intros [[w0 s0] [E H]]. inversion E; subst.
    apply star_splits_sound in H as [-> H]. split; [reflexivity|].
    constructor. simpl. now rewrite Ec.
  - destruct s as [|c t].
    + intros [H|[]]. inversion H; subst. split; [reflexivity|constructor].
    + destruct (atom_match a c) eqn:Ec.
      * intros [H|[H|[]]]; inversion H; subst;
          (split; [reflexivity|]); [now apply m_opt_some|apply m_opt_none].
      * intros [H|[]]. inversion H; subst. split; [reflexivity|constructor].
  - rewrite in_map_iff. intros [[[w0 s0] g0] [E H]]. inversion E; subst.
    destruct (IH _ _ _ _ _ H) as [-> M0]. split; [reflexivity|now constructor].
Qed.

(** Every prefix in the language of the pattern is found by the matcher. *)
Lemma rmatch_complete (r : regex) (w : str) :
  matches r w ->
  forall rest g, exists g', In (w, rest, g') (rmatch r (w ++ rest) g).
Proof.
  induction 1 as [|a c Hc|r1 r2 w1 w2 _ IH1 _ IH2|r1 r2 w _ IH|r1 r2 w _ IH
                 |a w Hw|a c w Hw| a |a c Hc|n r w _ IH];
    intros rest g; simpl.
  - exists g. now left.
  - rewrite Hc. exists g. now left.
  - destruct (IH1 (w2 ++ rest) g) as [g1 H1].
    destruct (IH2 rest g1) as [g2 H2].
    exists g2. rewrite <- app_assoc. apply in_flat_map.
    exists (w1, w2 ++ rest, g1). split; [exact H1|].
    apply in_map_iff. exists (w2, rest, g2). split; [reflexivity|exact H2].
  - destruct (IH rest g) as [g' H]. exists g'. apply in_or_app. now left.
  - destruct (IH rest g) as [g' H]. exists g'. apply in_or_app. now right.
  - exists g. apply in_map_iff. exists (w, rest). split; [reflexivity|].
    now apply star_splits_complete.
  - simpl in Hw. apply andb_prop in Hw as [Hc Hw]. rewrite Hc.
    exists g. apply in_map_iff. exists (w, rest). split; [reflexivity|].
    now apply star_splits_complete.
  - exists g. destruct rest as [|c t]; [now left|].
    destruct (atom_match a c); [right|]; now left.
  - rewrite Hc. exists g. now left.
  - destruct (IH rest g) as [g' H]. exists ((n, w) :: g').
    apply in_map_iff. exists (w, rest, g'). split; [reflexivity|exact H].
Qed.

(** What [search] returns is a way of matching at some position. *)
Lemma search_sound (r : regex) (s : str) (m : match_object) :
  search r s = Some m ->
  exists pre s', s = pre ++ whole m ++ s' /\
                 In (whole m, s', captures m) (rmatch r (whole m ++ s') []).
Proof.
  induction s as [|c t IH]; simpl search.
  - destruct (rmatch r [] []) as [|[[w s'] g] l] eqn:E; [discriminate|].
    intros H; inversion H; subst; simpl.
    assert (Hin : In (w, s', g) (rmatch r [] [])) by (rewrite E; now left).
    destruct (rmatch_sound _ _ _ _ _ _ Hin) as [Hs _].
    exists [], s'. split; [exact Hs|]. now rewrite <- Hs.
  - destruct (rmatch r (c :: t) []) as [|[[w s'] g] l] eqn:E.
    + intros H. destruct (IH H) as (pre & s' & -> & Hin).
      exists (c :: pre), s'. split; [reflexivity|exact Hin].
    + intros H; inversion H; subst; simpl.
      assert (Hin : In (w, s', g) (rmatch r (c :: t) [])) by (rewrite E; now left).
      destruct (rmatch_sound _ _ _ _ _ _ Hin) as [Hs _].
      exists [], s'. split; [exact Hs|]. now rewrite <- Hs.
Qed.

(** [search] finds a match in every text that contains one. *)
Lemma search_complete (r : regex) (s : str) :
  contains_match r s -> exists m, search r s = Some m.
Proof.
  intros (pre & w & post & -> & Hm).
  induction pre as [|c pre IH]; simpl app.
  - destruct (rmatch_complete r w Hm post []) as [g' Hin].
    destruct (w ++ post) as [|c t]; simpl search;
      destruct (rmatch r _ []) as [|[[w0 s0] g0] l]; try (now destruct Hin);
      eexists; reflexivity.
  - simpl search.
    destruct (rmatch r (c :: pre ++ w ++ post) []) as [|[[w0 s0] g0] l];
      [exact IH|eexists; reflexivity].
Qed.

Lemma search_unfold (r : regex) (s : str) :
  search r s =
  match rmatch r s [] with
  | (w, _, g) :: _ => Some {| whole := w; captures := g |}
  | [] => match s with [] => None | _ :: t => search r t end
  end.
Proof. destruct s; reflexivity. Qed.

Lemma starts_with_app (key rest : str) : starts_with key (key ++ rest) = true.
Proof.
  induction key as [|k key IH]; simpl; [reflexivity|].
  unfold char_eqb. now rewrite N.eqb_refl.
Qed.

(** A literal key matches in one way, where the text begins with it. *)
Lemma rmatch_lits (key s : str) (g : groups) :
  rmatch (lits key) s g =
  if starts_with key s then [(key, skipn (List.length key) s, g)] else [].
Proof.
  revert s. induction key as [|k key IH]; intros s; simpl; [reflexivity|].
  destruct s as [|c t]; [reflexivity|].
  destruct (char_eqb c k) eqn:Ec; simpl; [|reflexivity].
  apply N.eqb_eq in Ec. subst c.
  rewrite IH. destruct (starts_with key t); reflexivity.
Qed.

Section Keyed.

Variables (key : str) (n : nat) (body : regex).

(** The search skips the positions before the first occurrence of the
    key. *)
Lemma search_keyed_skip (s : str) (i : nat) :
  first_occurrence key s = Some i ->
  search (keyed key n body) s = search (keyed key n body) (skipn i s).
Proof.
  revert i. induction s as [|c t IH]; intros i; simpl first_occurrence.
  - destruct (starts_with key []); [|discriminate].
    intros H; inversion H; reflexivity.
  - destruct (starts_with key (c :: t)) eqn:Es.
    + intros H; inversion H; reflexivity.
    + destruct (first_occurrence key t) as [j|]; [|discriminate].
      intros H; inversion H; subst i.
      rewrite search_unfold. unfold keyed at 1. simpl rmatch.
      rewrite rmatch_lits, Es. simpl. now apply IH.
Qed.

(** Where the text begins with the key and the body then matches first
    as [v], the search returns the key and [v], and group [n] is [v]. *)
Lemma search_keyed_found (v post : str) (tl : list (str * str * groups)) :
  rmatch body (v ++ post) [] = (v, post, []) :: tl ->
  search (keyed key n body) (key ++ v ++ post) =
  Some {| whole := key ++ v; captures := [(n, v)] |}.
Proof.
  intros H. rewrite search_unfold. unfold keyed. simpl rmatch.
  rewrite rmatch_lits, starts_with_app, skipn_app.
  rewrite Nat.sub_diag, skipn_all. simpl. rewrite H. reflexivity.
Qed.

(** What the search returns: group [n] is a text in the language of the
    body that stands in the text right after the key. *)
Lemma search_keyed_sound (s : str) (m : match_object) :
  search (keyed key n body) s = Some m ->
  exists v, lookup n (captures m) = Some v /\
            whole m = key ++ v /\
            (exists pre post, s = pre ++ key ++ v ++ post) /\
            matches body v.
Proof.
  intros H. apply search_sound in H as (pre & s' & Hs & Hin).
  unfold keyed in Hin. simpl rmatch in Hin.
  apply in_flat_map in Hin as [[[w1 s1] g1] [H1 H2]].
  rewrite rmatch_lits in H1.
  destruct (starts_with key _); [|now destruct H1].
  destruct H1 as [H1|[]]. inversion H1; subst w1 g1. clear H1.
  apply in_map_iff in H2 as [[[w2 s2] g2] [E H2]].
  apply in_map_iff in H2 as [[[w3 s3] g3] [E' Hbody]].
  inversion E' as [[Ew Es Eg]]. inversion E as [[Hw Hs' Hg]].
  apply rmatch_sound in Hbody as [_ Hm].
  subst w3 s3.
  exists w2. rewrite <- Hg, <- Eg. simpl. rewrite Nat.eqb_refl.
  repeat split; auto.
  exists pre, s'. rewrite Hs, <- Hw, <- app_assoc. reflexivity.
Qed.

End Keyed.

Lemma is_digit_dot : is_digit DOT = false.
Proof. reflexivity. Qed.

(** On a numeral with a fraction that ends there, the pattern of a
    coordinate matches the whole numeral first. *)
Lemma coordinate_number_head (d f post : str) (g : groups) :
  digits d -> digits f -> no_digit_ahead post ->
  exists tl,
    rmatch coordinate_number (d ++ DOT :: f ++ post) g =
    (d ++ DOT :: f, post, g) :: tl.
Proof.
  intros [Hd1 Hd2] [Hf1 Hf2] Hpost.
  unfold coordinate_number.
  destruct (plus_head Digit d (DOT :: f ++ post) g Hd1 Hd2 is_digit_dot)
    as [tl1 E1].
  assert (Hpost' : match post with [] => True | c :: _ => atom_match Digit c = false end)
    by (destruct post; exact Hpost).
  destruct (plus_head Digit f post g Hf1 Hf2 Hpost') as [tl2 E2].
  change (rmatch (Seq (Plus Digit) (Seq (Atom Dot) (Plus Digit)))
            (d ++ DOT :: f ++ post) g)
    with (flat_map (fun '(w1, s1, g1) =>
                      map (fun '(w2, s2, g2) => (w1 ++ w2, s2, g2))
                          (rmatch (Seq (Atom Dot) (Plus Digit)) s1 g1))
                   (rmatch (Plus Digit) (d ++ DOT :: f ++ post) g)).
  rewrite E1. cbn [flat_map].
  change (rmatch (Seq (Atom Dot) (Plus Digit)) (DOT :: f ++ post) g)
    with (flat_map (fun '(w1, s1, g1) =>
                      map (fun '(w2, s2, g2) => (w1 ++ w2, s2, g2))
                          (rmatch (Plus Digit) s1 g1))
                   [([DOT], f ++ post, g)]).
  cbn [flat_map]. rewrite E2. cbn [map app].
  eexists. reflexivity.
Qed.

(** The search for a keyed coordinate on a text whose first occurrence of
    the key is followed by a numeral with a fraction. *)
Lemma search_first_item (key d f s : str) :
  digits d -> digits f ->
  first_item key (d ++ DOT :: f) s ->
  search (Seq (lits key) (Group 1 coordinate_number)) s =
  Some {| whole := key ++ d ++ DOT :: f; captures := [(1%nat, d ++ DOT :: f)] |}.
Proof.
  intros Hd Hf (pre & post & -> & Hfirst & Hpost).
  change (Seq (lits key) (Group 1 coordinate_number))
    with (keyed key 1 coordinate_number).
  rewrite (search_keyed_skip key 1 coordinate_number _ _ Hfirst).
  rewrite skipn_app, Nat.sub_diag, skipn_all. cbn [skipn app].
  destruct (coordinate_number_head d f post [] Hd Hf Hpost) as [tl E].
  apply (search_keyed_found key 1 coordinate_number (d ++ DOT :: f) post tl).
  rewrite <- app_assoc. exact E.
Qed.

Lemma scrap_coordinates_run (self : SuumoScrapper) (m1 m2 : match_object)
    (lati longi : str) :
  search LAT__REGEX (map_soup self) = Some m1 ->
  lookup 1 (captures m1) = Some lati ->
  search LONG_REGEX (map_soup self) = Some m2 ->
  lookup 1 (captures m2) = Some longi ->
  scrap_coordinates self = (self, [], Ok (lati, longi)).
Proof.
  intros S1 G1 S2 G2.
  unfold scrap_coordinates, bind, get_self, lift.
  rewrite S1, S2. cbn [not_none rbind group]. rewrite G1, G2. reflexivity.
Qed.

(** What [search] returns is a match at the leftmost position that has
    one. *)
Lemma search_leftmost (r : regex) (s : str) (m : match_object) :
  search r s = Some m -> exists pre, leftmost_match r s pre (whole m).
Proof.
  revert m. induction s as [|c t IH]; intros m; rewrite search_unfold.
  - destruct (rmatch r [] []) as [|[[w s'] g] l] eqn:E; [discriminate|].
    intros H; inversion H; subst; cbn [whole].
    assert (Hin : In (w, s', g) (rmatch r [] [])) by (rewrite E; now left).
    destruct (rmatch_sound _ _ _ _ _ _ Hin) as [Hs Hm].
    exists []. repeat split; [exists s'; exact Hs|exact Hm|intros; simpl; lia].
  - destruct (rmatch r (c :: t) []) as [|[[w s'] g] l] eqn:E.
    + intros H. destruct (IH m H) as (pre & (post & Hs) & Hm & Hleft).
      exists (c :: pre). repeat split.
      * exists post. now rewrite Hs.
      * exact Hm.
      * intros pre' w' post' Hs' Hm'. destruct pre' as [|c' pre''].
        -- exfalso. cbn [app] in Hs'.
           destruct (rmatch_complete r w' Hm' post' []) as [g' Hin].
           rewrite <- Hs', E in Hin. exact Hin.
        -- cbn [app] in Hs'. inversion Hs' as [[Hc Ht]].
           specialize (Hleft pre'' w' post' Ht Hm'). simpl. lia.
    + intros H; inversion H; subst; cbn [whole].
      assert (Hin : In (w, s', g) (rmatch r (c :: t) [])) by (rewrite E; now left).
      destruct (rmatch_sound _ _ _ _ _ _ Hin) as [Hs Hm].
      exists []. repeat split; [exists s'; exact Hs|exact Hm|intros; simpl; lia].
Qed.

(** C6, as amended.  On every map page that contains a substring matching
    the latitude pattern and one matching the longitude pattern,
    [scrap_coordinates] returns a pair of strings, latitude first, each
    taken from the leftmost match of its pattern on the page: a text of the
    form digits, one character, digits that stands right after its key,
    where no match of the pattern starts earlier.  When the first
    occurrence of each key is followed by a numeral with a fraction that is
    not continued by a digit, the pair is exactly these two numerals,
    unparsed; so a page whose first latitude entry is 35.6895 and whose
    first longitude entry is 139.6917 gives ("35.6895", "139.6917"). *)
Theorem scrap_coordinates_spec (self : SuumoScrapper) :
  (contains_match LAT__REGEX (map_soup self) ->
   contains_match LONG_REGEX (map_soup self) ->
   exists lati longi pre1 pre2,
     scrap_coordinates self = (self, [], Ok (lati, longi)) /\
     leftmost_match LAT__REGEX (map_soup self) pre1 (LAT_KEY ++ lati) /\
     leftmost_match LONG_REGEX (map_soup self) pre2 (LONG_KEY ++ longi) /\
     follows LAT_KEY lati (map_soup self) /\ matches coordinate_number lati /\
     follows LONG_KEY longi (map_soup self) /\ matches coordinate_number longi) /\
  (forall d1 f1 d2 f2,
     digits d1 -> digits f1 -> digits d2 -> digits f2 ->
     first_item LAT_KEY (d1 ++ DOT :: f1) (map_soup self) ->
     first_item LONG_KEY (d2 ++ DOT :: f2) (map_soup self) ->
     scrap_coordinates self =
     (self, [], Ok (d1 ++ DOT :: f1, d2 ++ DOT :: f2))) /\
  (first_item LAT_KEY (lit "35.6895") (map_soup self) ->
   first_item LONG_KEY (lit "139.6917") (map_soup self) ->
   scrap_coordinates self = (self, [], Ok (lit "35.6895", lit "139.6917"))).
Proof.
  assert (P : forall d1 f1 d2 f2,
     digits d1 -> digits f1 -> digits d2 -> digits f2 ->
     first_item LAT_KEY (d1 ++ DOT :: f1) (map_soup self) ->
     first_item LONG_KEY (d2 ++ DOT :: f2) (map_soup self) ->
     scrap_coordinates self =
     (self, [], Ok (d1 ++ DOT :: f1, d2 ++ DOT :: f2))).
  { intros d1 f1 d2 f2 Hd1 Hf1 Hd2 Hf2 I1 I2.
    eapply scrap_coordinates_run.
    - apply (search_first_item LAT_KEY d1 f1 _ Hd1 Hf1 I1).
    - reflexivity.
    - apply (search_first_item LONG_KEY d2 f2 _ Hd2 Hf2 I2).
    - reflexivity. }
  split; [|split; [exact P|]].
  - intros C1 C2.
    destruct (search_complete _ _ C1) as [m1 S1].
    destruct (search_complete _ _ C2) as [m2 S2].
    destruct (search_keyed_sound LAT_KEY 1 coordinate_number _ _ S1)
      as (lati & G1 & W1 & F1 & M1).
    destruct (search_keyed_sound LONG_KEY 1 coordinate_number _ _ S2)
      as (longi & G2 & W2 & F2 & M2).
    destruct (search_leftmost _ _ _ S1) as [pre1 L1].
    destruct (search_leftmost _ _ _ S2) as [pre2 L2].
    rewrite W1 in L1. rewrite W2 in L2.
    exists lati, longi, pre1, pre2.
    split; [exact (scrap_coordinates_run self m1 m2 lati longi S1 G1 S2 G2)|].
    exact (conj L1 (conj L2 (conj F1 (conj M1 (conj F2 M2))))).
  - intros I1 I2.
    apply (P (lit "35") (lit "6895") (lit "139") (lit "6917"));
      try (split; [discriminate|reflexivity]); assumption.
Qed.

Lemma scrap_coordinates_spec_witness :
  let self := {| soup := Text []; map_soup := map_sample; monthly_price := 0 |} in
  scrap_coordinates self = (self, [], Ok (lit "35.6895", lit "139.6917")).
Proof.
  intros self.
  apply (proj2 (proj2 (scrap_coordinates_spec self))).
  - exists (lit "{"), (lit ", " ++ LONG_KEY ++ lit "139.6917}").
    split; [reflexivity|]. split; [vm_compute; reflexivity|reflexivity].
  - exists (lit "{" ++ LAT_KEY ++ lit "35.6895, "), (lit "}").
    split; [reflexivity|]. split; [vm_compute; reflexivity|reflexivity].
Defined.

(** C6 as first stated fails: a page can contain the entries 35.6895 and
    139.6917 and give another pair, since the search stops at the first
    match.  Here an entry 1.5 comes before the latitude 35.6895. *)
Lemma scrap_coordinates_spec_counterexample :
  let page := LAT_KEY ++ lit "1.5 " ++ LAT_KEY ++ lit "35.6895 "
              ++ LONG_KEY ++ lit "139.6917" in
  let self := {| soup := Text []; map_soup := page; monthly_price := 0 |} in
  follows LAT_KEY (lit "35.6895") page /\
  follows LONG_KEY (lit "139.6917") page /\
  scrap_coordinates self = (self, [], Ok (lit "1.5", lit "139.6917")) /\
  scrap_coordinates self <> (self, [], Ok (lit "35.6895", lit "139.6917")).
Proof.
  intros page self. split; [|split; [|split]].
  - exists (LAT_KEY ++ lit "1.5 "), (lit " " ++ LONG_KEY ++ lit "139.6917").
    reflexivity.
  - exists (LAT_KEY ++ lit "1.5 " ++ LAT_KEY ++ lit "35.6895 "), [].
    reflexivity.
  - vm_compute. reflexivity.
  - vm_compute. discriminate.
Qed.

(* ================================================================== *)
(** * Further properties: strings and addresses                          *)
(* ================================================================== *)

Lemma mem_char_in (c : char) (chars : str) :
  mem_char c chars = true <-> In c chars.
Proof.
  unfold mem_char. rewrite existsb_exists. split.
  - intros (x & Hin & E). apply N.eqb_eq in E. now subst.
  - intros H. exists c. split; [exact H|apply N.eqb_refl].
Qed.

(** [lstrip] depends on the set of the characters only. *)
Lemma lstrip_ext (A B s : str) :
  (forall c, mem_char c A = mem_char c B) -> lstrip A s = lstrip B s.
Proof.
  intros H. induction s as [|c t IH]; simpl; [reflexivity|].
  rewrite H, IH. reflexivity.
Qed.

Lemma mem_crlf_tabs (n : nat) (c : char) :
  mem_char c (crlf_tabs (S n)) = mem_char c [CR; LF; TAB].
Proof.
  unfold crlf_tabs, mem_char. cbn [existsb repeat].
  destruct (char_eqb c CR); [reflexivity|].
  destruct (char_eqb c LF); [reflexivity|]. cbn [orb].
  destruct (char_eqb c TAB) eqn:E; [reflexivity|]. cbn [orb].
  induction n as [|n IH]; [reflexivity|]. cbn [repeat existsb]. now rewrite E.
Qed.

(** What [lstrip] removes is a run of characters of the set, and what it
    leaves does not begin with one. *)
Lemma lstrip_decompose (chars s : str) :
  exists pre,
    s = pre ++ lstrip chars s /\
    all_in chars pre = true /\
    starts_in chars (lstrip chars s) = false.
Proof.
  induction s as [|c t (pre & E & Hall & Hst)]; simpl.
  - exists []. repeat split.
  - destruct (mem_char c chars) eqn:Ec.
    + exists (c :: pre). simpl. rewrite Ec, Hall. repeat split; auto.
      now rewrite <- E.
    + exists []. simpl. rewrite Ec. repeat split.
Qed.

Lemma all_in_rev (chars s : str) : all_in chars (rev s) = all_in chars s.
Proof.
  unfold all_in. induction s as [|c t IH]; simpl; [reflexivity|].
  rewrite forallb_app, IH. simpl. rewrite andb_true_r. apply andb_comm.
Qed.

(** What [rstrip] removes is a run of characters of the set, and what it
    leaves does not end with one. *)
Lemma rstrip_decompose (chars s : str) :
  exists post,
    s = rstrip chars s ++ post /\
    all_in chars post = true /\
    ends_in chars (rstrip chars s) = false.
Proof.
  destruct (lstrip_decompose chars (rev s)) as (pre & E & Hall & Hst).
  exists (rev pre). unfold rstrip, ends_in.
  rewrite rev_involutive, all_in_rev. repeat split; auto.
  rewrite <- rev_app_distr, <- E. now rewrite rev_involutive.
Qed.

Lemma starts_in_prefix (chars s post : str) :
  starts_in chars (s ++ post) = false -> starts_in chars s = false.
Proof. destruct s; [reflexivity|exact (fun H => H)]. Qed.

Lemma endswith_app (s suffix : str) : endswith (s ++ suffix) suffix = true.
Proof.
  unfold endswith. rewrite length_app.
  replace (List.length s + List.length suffix - List.length suffix)%nat
    with (List.length s + 0)%nat by lia.
  rewrite skipn_app, Nat.add_0_r, skipn_all, Nat.sub_diag. cbn [skipn app].
  destruct (list_eq_dec N.eq_dec suffix suffix); [|congruence].
  rewrite andb_true_r. apply Nat.leb_le. lia.
Qed.

(** X1.  [add_slash_url] returns an address that ends with a slash; it
    returns its argument or its argument with one slash appended; applied
    to its own result it changes nothing. *)
Theorem add_slash_url_spec (url : str) :
  endswith (add_slash_url url) (lit "/") = true /\
  (add_slash_url url = url \/ add_slash_url url = url ++ lit "/") /\
  add_slash_url (add_slash_url url) = add_slash_url url.
Proof.
  assert (E : endswith (add_slash_url url) (lit "/") = true).
  { unfold add_slash_url. destruct (endswith url (lit "/")) eqn:H; [exact H|].
    apply endswith_app. }
  split; [exact E|]. split.
  - unfold add_slash_url. destruct (endswith url (lit "/")); auto.
  - unfold add_slash_url at 1. now rewrite E.
Qed.

(** X2.  An address and the same address with a slash at its end lead to
    the same map page address, which ends with [/kankyo/]. *)
Theorem kankyo_url_slash (url : str) :
  endswith url (lit "/") = false ->
  kankyo_url (url ++ lit "/") = kankyo_url url /\
  kankyo_url url = url ++ lit "/kankyo/" /\
  endswith (kankyo_url url) (lit "/kankyo/") = true.
Proof.
  intros H. unfold kankyo_url, add_slash_url.
  rewrite H, endswith_app. rewrite <- !app_assoc. cbn [lit app].
  repeat split. apply (endswith_app url (lit "/kankyo/")).
Qed.

Lemma kankyo_url_slash_witness :
  kankyo_url (lit "https://suumo.jp/chintai/bc_100296177140/") =
  kankyo_url (lit "https://suumo.jp/chintai/bc_100296177140").
Proof.
  apply (proj1 (kankyo_url_slash (lit "https://suumo.jp/chintai/bc_100296177140")
                  eq_refl)).
Defined.

(** X3.  [scrap_name] raises [AttributeError] when no element of the page
    has the title class.  Otherwise it returns the text of the first such
    element without a leading run of carriage returns, line feeds and tabs
    and without a trailing run of spaces: what it returns does not begin
    with one of the former and does not end with a space. *)
Theorem scrap_name_spec (self : SuumoScrapper) :
  (find_class (soup self) title_class = None ->
   scrap_name self = (self, [], Raise AttributeError)) /\
  (forall n, find_class (soup self) title_class = Some n ->
     exists name pre post,
       scrap_name self = (self, [], Ok name) /\
       text n = pre ++ name ++ post /\
       all_in [CR; LF; TAB] pre = true /\
       all_in [SPACE] post = true /\
       starts_in [CR; LF; TAB] name = false /\
       ends_in [SPACE] name = false).
Proof.
  unfold scrap_name, bind, get_self, lift, title_class. split.
  - intros ->. reflexivity.
  - intros n ->. cbn [not_none rbind].
    set (l := lstrip (CR :: LF :: repeat TAB 3) (text n)).
    assert (El : l = lstrip [CR; LF; TAB] (text n))
      by (apply lstrip_ext; intros c; apply (mem_crlf_tabs 2)).
    assert (Er : rstrip (repeat SPACE 24) l = rstrip [SPACE] l).
    { unfold rstrip. f_equal. apply lstrip_ext. intros c.
      unfold mem_char. cbn [repeat existsb].
      destruct (char_eqb c SPACE); reflexivity. }
    rewrite Er.
    destruct (lstrip_decompose [CR; LF; TAB] (text n)) as (pre & E1 & A1 & S1).
    destruct (rstrip_decompose [SPACE] l) as (post & E2 & A2 & S2).
    exists (rstrip [SPACE] l), pre, post.
    rewrite <- El in E1, S1.
    repeat split; auto.
    + rewrite <- E2. exact E1.
    + apply (starts_in_prefix _ _ post). now rewrite <- E2.
Qed.

Lemma scrap_name_spec_witness :
  let self := {| soup := Tag "[document]" []
                   [Tag "h1" ["section_h1-header-title"]
                      [Text (CR :: LF :: TAB :: lit "Maison A  ")]];
                 map_soup := []; monthly_price := 0 |} in
  exists name pre post,
    scrap_name self = (self, [], Ok name) /\
    CR :: LF :: TAB :: lit "Maison A  " = pre ++ name ++ post /\
    all_in [CR; LF; TAB] pre = true /\
    all_in [SPACE] post = true /\
    starts_in [CR; LF; TAB] name = false /\
    ends_in [SPACE] name = false.
Proof.
  intros self.
  apply (proj2 (scrap_name_spec self)
           (Tag "h1" ["section_h1-header-title"]
              [Text (CR :: LF :: TAB :: lit "Maison A  ")])).
  reflexivity.
Defined.

(* ================================================================== *)
(** * Further properties: coordinates                                    *)
(* ================================================================== *)

(** [search] finds nothing exactly in the texts that contain no match. *)
Lemma search_none (r : regex) (s : str) :
  search r s = None <-> ~ contains_match r s.
Proof.
  split.
  - intros H C. destruct (search_complete r s C) as [m Hm]. congruence.
  - intros H. destruct (search r s) as [m|] eqn:E; [|reflexivity].
    exfalso. apply H.
    destruct (search_sound r s m E) as (pre & s' & Hs & Hin).
    apply rmatch_sound in Hin as [_ Hm].
    exists pre, (whole m), s'. split; assumption.
Qed.

(** X4.  [scrap_coordinates] raises [AttributeError], leaving the instance
    as it was and printing nothing, exactly when the map page lacks a match
    of the latitude pattern or of the longitude pattern. *)
Theorem scrap_coordinates_missing (self : SuumoScrapper) :
  scrap_coordinates self = (self, [], Raise AttributeError) <->
  ~ (contains_match LAT__REGEX (map_soup self) /\
     contains_match LONG_REGEX (map_soup self)).
Proof.
  split.
  - intros H [C1 C2].
    destruct (search_complete _ _ C1) as [m1 S1].
    destruct (search_complete _ _ C2) as [m2 S2].
    destruct (search_keyed_sound LAT_KEY 1 coordinate_number _ _ S1)
      as (lati & G1 & _).
    destruct (search_keyed_sound LONG_KEY 1 coordinate_number _ _ S2)
      as (longi & G2 & _).
    rewrite (scrap_coordinates_run self m1 m2 lati longi S1 G1 S2 G2) in H.
    discriminate.
  - intros H. unfold scrap_coordinates, bind, get_self, lift.
    destruct (search LAT__REGEX (map_soup self)) as [m1|] eqn:S1;
      [|reflexivity].
    destruct (search_keyed_sound LAT_KEY 1 coordinate_number _ _ S1)
      as (lati & G1 & _).
    cbn [not_none rbind group]. rewrite G1. cbn [not_none rbind].
    destruct (search LONG_REGEX (map_soup self)) as [m2|] eqn:S2;
      [|reflexivity].
    exfalso. apply H. split.
    + destruct (search LAT__REGEX (map_soup self)) eqn:E; [|discriminate].
      destruct (search_none LAT__REGEX (map_soup self)) as [_ N].
      destruct (search_sound _ _ _ E) as (pre & s' & Hs & Hin).
      apply rmatch_sound in Hin as [_ Hm].
      exists pre, (whole m), s'. split; assumption.
    + destruct (search_sound _ _ _ S2) as (pre & s' & Hs & Hin).
      apply rmatch_sound in Hin as [_ Hm].
      exists pre, (whole m2), s'. split; assumption.
Qed.

Lemma scrap_coordinates_missing_witness :
  let self := {| soup := Text []; map_soup := lit "<html></html>";
                 monthly_price := 0 |} in
  scrap_coordinates self = (self, [], Raise AttributeError).
Proof.
  intros self.
  apply (proj2 (scrap_coordinates_missing self)).
  intros [C _]. apply (proj1 (search_none LAT__REGEX (map_soup self))); auto.
Defined.

(** On two runs of digits around a character that is neither a digit nor a
    line feed, the pattern of a coordinate matches the whole first. *)
Lemma coordinate_number_head_any (c : char) (d f post : str) (g : groups) :
  is_digit c = false -> char_eqb c LF = false ->
  digits d -> digits f -> no_digit_ahead post ->
  exists tl,
    rmatch coordinate_number (d ++ c :: f ++ post) g =
    (d ++ c :: f, post, g) :: tl.
Proof.
  intros Hc Hlf [Hd1 Hd2] [Hf1 Hf2] Hpost.
  unfold coordinate_number.
  destruct (plus_head Digit d (c :: f ++ post) g Hd1 Hd2 Hc) as [tl1 E1].
  assert (Hpost' : match post with [] => True | x :: _ => atom_match Digit x = false end)
    by (destruct post; exact Hpost).
  destruct (plus_head Digit f post g Hf1 Hf2 Hpost') as [tl2 E2].
  change (rmatch (Seq (Plus Digit) (Seq (Atom Dot) (Plus Digit)))
            (d ++ c :: f ++ post) g)
    with (flat_map (fun '(w1, s1, g1) =>
                      map (fun '(w2, s2, g2) => (w1 ++ w2, s2, g2))
                          (rmatch (Seq (Atom Dot) (Plus Digit)) s1 g1))
                   (rmatch (Plus Digit) (d ++ c :: f ++ post) g)).
  rewrite E1. cbn [flat_map].
  change (rmatch (Seq (Atom Dot) (Plus Digit)) (c :: f ++ post) g)
    with (flat_map (fun '(w1, s1, g1) =>
                      map (fun '(w2, s2, g2) => (w1 ++ w2, s2, g2))
                          (rmatch (Plus Digit) s1 g1))
                   (if negb (char_eqb c LF) then [([c], f ++ post, g)] else [])).
  rewrite Hlf. cbn [negb flat_map]. rewrite E2. cbn [map app].
  eexists. reflexivity.
Qed.

Lemma search_first_item_any (key : str) (c : char) (d f s : str) :
  is_digit c = false -> char_eqb c LF = false ->
  digits d -> digits f ->
  first_item key (d ++ c :: f) s ->
  search (keyed key 1 coordinate_number) s =
  Some {| whole := key ++ d ++ c :: f; captures := [(1%nat, d ++ c :: f)] |}.
Proof.
  intros Hc Hlf Hd Hf (pre & post & -> & Hfirst & Hpost).
  rewrite (search_keyed_skip key 1 coordinate_number _ _ Hfirst).
  rewrite skipn_app, Nat.sub_diag, skipn_all. cbn [skipn app].
  destruct (coordinate_number_head_any c d f post [] Hc Hlf Hd Hf Hpost)
    as [tl E].
  apply (search_keyed_found key 1 coordinate_number (d ++ c :: f) post tl).
  rewrite <- app_assoc. exact E.
Qed.

(** X5.  The separator of a coordinate need not be a point: when the first
    occurrence of each key is followed by digits, one character that is
    neither a digit nor a line feed, and digits, [scrap_coordinates]
    returns the two texts with that character, whatever it is. *)
Theorem scrap_coordinates_any_separator
    (self : SuumoScrapper) (c1 c2 : char) (d1 f1 d2 f2 : str) :
  is_digit c1 = false -> char_eqb c1 LF = false ->
  is_digit c2 = false -> char_eqb c2 LF = false ->
  digits d1 -> digits f1 -> digits d2 -> digits f2 ->
  first_item LAT_KEY (d1 ++ c1 :: f1) (map_soup self) ->
  first_item LONG_KEY (d2 ++ c2 :: f2) (map_soup self) ->
  scrap_coordinates self = (self, [], Ok (d1 ++ c1 :: f1, d2 ++ c2 :: f2)).
Proof.
  intros H1 L1 H2 L2 Hd1 Hf1 Hd2 Hf2 I1 I2.
  eapply scrap_coordinates_run.
  - apply (search_first_item_any LAT_KEY c1 d1 f1 _ H1 L1 Hd1 Hf1 I1).
  - reflexivity.
  - apply (search_first_item_any LONG_KEY c2 d2 f2 _ H2 L2 Hd2 Hf2 I2).
  - reflexivity.
Qed.

Lemma scrap_coordinates_any_separator_witness :
  let page := lit "{" ++ LAT_KEY ++ lit "35,6895 " ++ LONG_KEY ++ lit "139x6917}" in
  let self := {| soup := Text []; map_soup := page; monthly_price := 0 |} in
  scrap_coordinates self = (self, [], Ok (lit "35,6895", lit "139x6917")).
Proof.
  intros page self.
  apply (scrap_coordinates_any_separator self 44%N 120%N
           (lit "35") (lit "6895") (lit "139") (lit "6917"));
    try reflexivity; try (split; [discriminate|reflexivity]).
  - exists (lit "{"), (lit " " ++ LONG_KEY ++ lit "139x6917}").
    split; [reflexivity|]. split; [vm_compute; reflexivity|reflexivity].
  - exists (lit "{" ++ LAT_KEY ++ lit "35,6895 "), (lit "}").
    split; [reflexivity|]. split; [vm_compute; reflexivity|reflexivity].
Defined.

(* ================================================================== *)
(** * Further properties: the rent and its cache                         *)
(* ================================================================== *)

(** The three ways [scrap_price] can go. *)
Lemma scrap_price_run (self : SuumoScrapper) :
  scrap_price self =
  match rbind (not_none (price_element (soup self)))
              (fun n => price_of_text (text n)) with
  | Raise e => (self, [], Raise e)
  | Ok p =>
      (with_price self p, [],
       rbind (rbind (index (property_data_bodies (soup self)) 0)
                    (fun b => monthly_fees_of_text (text b)))
             (fun f => Ok (p, f)))
  end.
Proof.
  unfold scrap_price, bind, get_self, lift, set_monthly_price, ret,
    price_element, with_price.
  destruct (rbind (not_none _) _) as [p|e]; [|reflexivity].
  destruct (rbind (index _ 0) _) as [f|e]; reflexivity.
Qed.

(** X6.  When [scrap_price] returns, the rent it returns is the rent it
    has cached in the instance; the pages of the instance are the same and
    nothing was printed. *)
Theorem scrap_price_caches_rent
    (self self' : SuumoScrapper) (out : list string) (p f : Z) :
  scrap_price self = (self', out, Ok (p, f)) ->
  self' = with_price self p /\ monthly_price self' = p /\ out = [].
Proof.
  rewrite scrap_price_run.
  destruct (rbind (not_none _) _) as [p0|e]; [|discriminate].
  destruct (rbind (index _ 0) _) as [f0|e]; [|discriminate].
  cbn [rbind]. intros H. inversion H; subst. repeat split.
Qed.

Lemma scrap_price_caches_rent_witness :
  let self := {| soup := price_page (lit "7.5" ++ man_en) (lit "3000" ++ [YEN]);
                 map_soup := []; monthly_price := 0 |} in
  with_price self 75000 = with_price self 75000 /\
  monthly_price (with_price self 75000) = 75000 /\ @nil string = [].
Proof.
  intros self.
  apply (scrap_price_caches_rent self (with_price self 75000) [] 75000 3000).
  vm_compute. reflexivity.
Defined.

(** X7.  When the rent is read but the monthly fees are not, because the
    page has no block of class [property_data-body] or because the text of
    the first one is not an integer, [scrap_price] raises and the rent is
    cached all the same. *)
Theorem scrap_price_caches_before_fees
    (self : SuumoScrapper) (n : node) (p : Z) :
  price_element (soup self) = Some n ->
  price_of_text (text n) = Ok p ->
  (property_data_bodies (soup self) = [] ->
   scrap_price self = (with_price self p, [], Raise IndexError)) /\
  (forall b e,
     nth_error (property_data_bodies (soup self)) 0 = Some b ->
     monthly_fees_of_text (text b) = Raise e ->
     scrap_price self = (with_price self p, [], Raise e)).
Proof.
  intros He Hp. rewrite scrap_price_run, He. cbn [not_none rbind]. rewrite Hp.
  split.
  - intros ->. reflexivity.
  - intros b e Hb Hf. rewrite (index_ok _ _ _ Hb). cbn [rbind]. now rewrite Hf.
Qed.

Lemma scrap_price_caches_before_fees_witness :
  let self := {| soup := price_page (lit "7.5" ++ man_en) (lit "3,000" ++ [YEN]);
                 map_soup := []; monthly_price := 0 |} in
  scrap_price self = (with_price self 75000, [], Raise ValueError).
Proof.
  intros self.
  apply (proj2 (scrap_price_caches_before_fees self
                  (block "property_view_main-emphasis" (lit "7.5" ++ man_en))
                  75000 eq_refl eq_refl)
           (block "property_data-body" (lit "3,000" ++ [YEN])) ValueError).
  - reflexivity.
  - vm_compute. reflexivity.
Defined.

(** X8.  When the page has neither element of the rent, [scrap_price]
    raises [AttributeError]; when the text of the element is not a number,
    it raises what the conversion raises.  In both cases the cached rent is
    left as it was. *)
Theorem scrap_price_fails_before_cache (self : SuumoScrapper) :
  (price_element (soup self) = None ->
   scrap_price self = (self, [], Raise AttributeError)) /\
  (forall n e,
     price_element (soup self) = Some n ->
     price_of_text (text n) = Raise e ->
     scrap_price self = (self, [], Raise e)).
Proof.
  split.
  - intros H. rewrite scrap_price_run, H. reflexivity.
  - intros n e H He. rewrite scrap_price_run, H. cbn [not_none rbind].
    now rewrite He.
Qed.

Lemma scrap_price_fails_before_cache_witness :
  let self := {| soup := price_page (lit "ask") (lit "3000" ++ [YEN]);
                 map_soup := []; monthly_price := 42 |} in
  scrap_price self = (self, [], Raise ValueError).
Proof.
  intros self.
  apply (proj2 (scrap_price_fails_before_cache self)
           (block "property_view_main-emphasis" (lit "ask")) ValueError).
  - reflexivity.
  - vm_compute. reflexivity.
Defined.

Lemma scrap_other_fees_run (self : SuumoScrapper)
    (fees : float * float * float * float) :
  one_time_fees (soup self) = Ok fees ->
  scrap_other_fees self =
  if monthly_price self =? 0 then (self, [no_price_message], Ok (Int 0))
  else (self, [],
        rbind (months_of (fees_total fees) (monthly_price self))
              (fun x => Ok (Float x))).
Proof.
  intros H. unfold scrap_other_fees, bind, get_self, lift, print, ret, months_of.
  rewrite H. destruct (monthly_price self =? 0); [reflexivity|].
  destruct (rbind (mul_int _ _) _); reflexivity.
Qed.

(** X9.  [scrap_other_fees] called after [scrap_price] divides by the rent
    that [scrap_price] has just returned, whatever was cached before: when
    that rent is not zero nothing is printed and the result is the total of
    the fees times 10000 over that rent; when it is zero the diagnostic is
    printed and the result is the integer 0. *)
Theorem scrap_price_then_other_fees
    (self self' : SuumoScrapper) (p f : Z)
    (fees : float * float * float * float) :
  scrap_price self = (self', [], Ok (p, f)) ->
  one_time_fees (soup self) = Ok fees ->
  and_then scrap_price scrap_other_fees self =
  if p =? 0 then (with_price self 0, [no_price_message], Ok (Int 0))
  else (with_price self p, [],
        rbind (months_of (fees_total fees) p) (fun x => Ok (Float x))).
Proof.
  intros Hp Hf.
  assert (E : self' = with_price self p).
  { revert Hp. rewrite scrap_price_run.
    destruct (rbind (not_none _) _) as [p0|e]; [|discriminate].
    destruct (rbind (index _ 0) _) as [f0|e]; [|discriminate].
    cbn [rbind]. intros H; inversion H; reflexivity. }
  unfold and_then, bind. rewrite Hp, E.
  rewrite (scrap_other_fees_run (with_price self p) fees Hf).
  cbn [monthly_price with_price].
  destruct (p =? 0) eqn:Z0.
  - apply Z.eqb_eq in Z0. subst p. reflexivity.
  - destruct (rbind (months_of _ _) _); reflexivity.
Qed.

Lemma scrap_price_then_other_fees_witness :
  let page := Tag "[document]" []
                (block "property_view_main-emphasis" (lit "5" ++ man_en)
                 :: map (block "property_data-body") sample_fields) in
  let self := {| soup := page; map_soup := []; monthly_price := 0 |} in
  and_then scrap_price scrap_other_fees self =
  (with_price self 50000, [], Ok (Float (of_Z 3))).
Proof.
  intros page self.
  apply (scrap_price_then_other_fees self (with_price self 50000) 50000 5000
           (of_Z 5, of_Z 5, of_Z 5, of_Z 0)).
  - vm_compute. reflexivity.
  - vm_compute. reflexivity.
Defined.

(* ================================================================== *)
(** * Further properties: signs                                          *)
(* ================================================================== *)

Lemma lstrip_incl (chars s : str) (c : char) :
  In c (lstrip chars s) -> In c s.
Proof.
  destruct (lstrip_decompose chars s) as (pre & E & _).
  intros H. rewrite E. apply in_or_app. now right.
Qed.

Lemma rstrip_incl (chars s : str) (c : char) :
  In c (rstrip chars s) -> In c s.
Proof.
  destruct (rstrip_decompose chars s) as (post & E & _).
  intros H. rewrite E. apply in_or_app. now left.
Qed.

Lemma strip_incl (s : str) (c : char) : In c (strip_number s) -> In c s.
Proof. intros H. apply rstrip_incl, lstrip_incl in H. exact H. Qed.

(** After [replace('-', '0')] no minus sign is left. *)
Lemma replace_minus_free (s : str) : ~ In MINUS (replace MINUS (lit "0") s).
Proof.
  unfold replace. rewrite in_flat_map. intros (c & _ & H).
  destruct (char_eqb c MINUS) eqn:E.
  - destruct H as [H|[]]. discriminate H.
  - destruct H as [H|[]]. subst c. discriminate E.
Qed.

Lemma sign_of_minus_free (s : str) :
  ~ In MINUS s -> fst (sign_of s) = false.
Proof.
  destruct s as [|c t]; [reflexivity|]. intros H. simpl.
  destruct (char_eqb c MINUS) eqn:E.
  - apply N.eqb_eq in E. subst c. exfalso. apply H. now left.
  - destruct (char_eqb c PLUS); reflexivity.
Qed.

Lemma digit_value_nonneg (c : char) (d : Z) : digit_value c = Some d -> 0 <= d.
Proof.
  unfold digit_value. destruct (List.find _ _); [|discriminate].
  intros H; inversion H. lia.
Qed.

Lemma digits_run_nonneg (s : str) :
  forall b, Forall (fun d => 0 <= d) (fst (digits_run b s)).
Proof.
  induction s as [|c t IH]; intros b; simpl; [constructor|].
  destruct (digit_value c) as [d|] eqn:E.
  - specialize (IH true). destruct (digits_run true t) as [ds r]. simpl in *.
    constructor; [now apply (digit_value_nonneg c)|exact IH].
  - destruct (b && char_eqb c UNDERSCORE); [|constructor].
    destruct t as [|c2 t']; [constructor|].
    destruct (is_digit c2); [apply IH|constructor].
Qed.

Lemma digits_value_nonneg (ds : list Z) :
  Forall (fun d => 0 <= d) ds -> 0 <= digits_value ds.
Proof.
  unfold digits_value.
  assert (G : forall acc, 0 <= acc -> Forall (fun d => 0 <= d) ds ->
                          0 <= fold_left (fun a d => a * 10 + d) ds acc).
  { induction ds as [|d ds IH]; intros acc Ha Hd; simpl; [exact Ha|].
    inversion Hd; subst. apply IH; [lia|assumption]. }
  apply G. lia.
Qed.

(** X10.  The monthly fees that [scrap_price] reads are never negative: a
    minus sign in the text is turned into the digit 0 before the text is
    converted. *)
Theorem monthly_fees_never_negative :
  (forall raw z, monthly_fees_of_text raw = Ok z -> 0 <= z) /\
  (forall self self' out p f,
     scrap_price self = (self', out, Ok (p, f)) -> 0 <= f).
Proof.
  assert (G : forall raw z, monthly_fees_of_text raw = Ok z -> 0 <= z).
  { intros raw z. unfold monthly_fees_of_text, int_of_str.
    set (t := replace MINUS (lit "0") (rstrip man_en raw)).
    assert (Hfree : ~ In MINUS (strip_number t)).
    { intros H. apply strip_incl in H. exact (replace_minus_free _ H). }
    pose proof (sign_of_minus_free _ Hfree) as Hs.
    destruct (sign_of (strip_number t)) as [neg body]. simpl in Hs. subst neg.
    pose proof (digits_run_nonneg body false) as Hd.
    destruct (digits_run false body) as [[|d ds] r]; [discriminate|].
    destruct r; [|discriminate].
    intros H; inversion H. apply digits_value_nonneg. exact Hd. }
  split; [exact G|].
  intros self self' out p f. rewrite scrap_price_run.
  destruct (rbind (not_none _) _) as [p0|e]; [|discriminate].
  unfold index. destruct (nth_error _ 0) as [b|]; [|discriminate].
  cbn [rbind].
  destruct (monthly_fees_of_text (text b)) as [f0|e] eqn:E; [|discriminate].
  cbn [rbind]. intros H; inversion H; subst. exact (G _ _ E).
Qed.

Lemma monthly_fees_never_negative_witness :
  monthly_fees_of_text (lit "-500" ++ [YEN]) = Ok 500 /\ 0 <= 500.
Proof.
  split; [vm_compute; reflexivity|].
  apply (proj1 monthly_fees_never_negative (lit "-500" ++ [YEN]) 500).
  vm_compute. reflexivity.
Defined.

(** The sign of a rounded number is the sign given. *)
Lemma binary_round_aux_sign (mx ex : Z) (lx : location) :
  is_negative (binary_round_aux prec emax false mx ex lx) = false.
Proof.
  unfold binary_round_aux.
  destruct (shr_fexp prec emax mx ex lx) as [mrs' e'].
  destruct (shr_fexp prec emax _ e' loc_Exact) as [mrs'' e''].
  destruct (shr_m mrs''); [reflexivity| |reflexivity].
  destruct (e'' <=? emax - prec); reflexivity.
Qed.

Lemma binary_round_sign (m : positive) (e : Z) :
  is_negative (binary_round prec emax false m e) = false.
Proof.
  unfold binary_round. destruct (shl_align _ _ _) as [mz ez].
  apply binary_round_aux_sign.
Qed.

Lemma add_sign (x y : float) :
  is_negative x = false -> is_negative y = false ->
  is_negative (add x y) = false.
Proof.
  unfold add.
  destruct x as [sx|sx| |sx mx ex], y as [sy|sy| |sy my ey];
    simpl; intros Hx Hy; subst; try reflexivity.
  unfold binary_normalize. cbn [cond_Zopp Z.add].
  apply binary_round_sign.
Qed.

Lemma mul_sign (x y : float) :
  is_negative x = false -> is_negative y = false ->
  is_negative (mul x y) = false.
Proof.
  unfold mul.
  destruct x as [sx|sx| |sx mx ex], y as [sy|sy| |sy my ey];
    simpl; intros Hx Hy; subst; try reflexivity.
  apply binary_round_aux_sign.
Qed.

Lemma div_sign (x y : float) :
  is_negative x = false -> is_negative y = false ->
  is_negative (div x y) = false.
Proof.
  unfold div.
  destruct x as [sx|sx| |sx mx ex], y as [sy|sy| |sy my ey];
    simpl; intros Hx Hy; subst; try reflexivity.
  destruct (SFdiv_core_binary _ _ _ _ _ _) as [[mz ez] lz].
  apply binary_round_aux_sign.
Qed.

Lemma of_int_sign (n : Z) (x : float) :
  0 <= n -> of_int n = Ok x -> is_negative x = false.
Proof.
  intros Hn. unfold of_int.
  assert (S : is_negative (binary_normalize prec emax n 0 false) = false).
  { destruct n as [|p|p]; [reflexivity|apply binary_round_sign|lia]. }
  destruct (binary_normalize prec emax n 0 false); try discriminate;
    intros H; inversion H; subst; exact S.
Qed.

Lemma of_decimal_sign (m e10 : Z) : is_negative (of_decimal false m e10) = false.
Proof.
  unfold of_decimal. destruct m; try reflexivity.
  destruct (0 <=? e10); unfold of_ratio; apply div_sign; reflexivity.
Qed.

(** [float] of a string without a minus sign is not negative. *)
Lemma of_str_sign (s : str) (x : float) :
  ~ In MINUS s -> of_str s = Ok x -> is_negative x = false.
Proof.
  intros Hfree. unfold of_str.
  assert (Hs : fst (sign_of (strip_number s)) = false).
  { apply sign_of_minus_free. intros H. apply strip_incl in H. tauto. }
  destruct (sign_of (strip_number s)) as [neg body]. simpl in Hs. subst neg.
  destruct (str_eqb _ _ || str_eqb _ _).
  { intros H; inversion H; reflexivity. }
  destruct (str_eqb _ _).
  { intros H; inversion H; reflexivity. }
  destruct (digits_run false body) as [ip r1].
  destruct (match r1 with [] => _ | _ :: _ => _ end) as [fp r2].
  destruct (ip ++ fp); [discriminate|].
  destruct (exponent_of r2) as [e10 r3].
  destruct r3; [|discriminate].
  intros H; inversion H. apply of_decimal_sign.
Qed.

Lemma fee_of_text_sign (t : str) (x : float) :
  fee_of_text t = Ok x -> is_negative x = false.
Proof. apply of_str_sign, replace_minus_free. Qed.

Lemma one_time_fees_sign (s : node) (fees : float * float * float * float) :
  one_time_fees s = Ok fees -> is_negative (fees_total fees) = false.
Proof.
  unfold one_time_fees, index, not_none, rbind.
  repeat match goal with
         | |- context [match nth_error ?l ?i with _ => _ end] =>
             destruct (nth_error l i); [|discriminate]
         | |- context [match search ?r ?t with _ => _ end] =>
             destruct (search r t); [|discriminate]
         | |- context [match group ?m ?n with _ => _ end] =>
             destruct (group m n); [|discriminate]
         | |- context [match fee_of_text ?t with _ => _ end] =>
             let E := fresh "E" in
             destruct (fee_of_text t) eqn:E;
             [apply fee_of_text_sign in E|discriminate]
         end.
  intros H; inversion H. unfold fees_total.
  repeat apply add_sign; assumption.
Qed.

(** X11.  A fee read from the page is never a negative float, and with a
    positive cached rent the number of months that [scrap_other_fees]
    returns is never negative. *)
Theorem fees_never_negative :
  (forall t x, fee_of_text t = Ok x -> is_negative x = false) /\
  (forall self self' out x,
     0 < monthly_price self ->
     scrap_other_fees self = (self', out, Ok (Float x)) ->
     is_negative x = false).
Proof.
  split; [exact fee_of_text_sign|].
  intros self self' out x Hrent.
  destruct (one_time_fees (soup self)) as [fees|e] eqn:E.
  - rewrite (scrap_other_fees_run self fees E).
    destruct (monthly_price self =? 0) eqn:Z0; [apply Z.eqb_eq in Z0; lia|].
    unfold months_of, mul_int, truediv_int.
    destruct (of_int 10000) as [y|] eqn:E1; [|discriminate].
    cbn [rbind].
    destruct (of_int (monthly_price self)) as [r|] eqn:E2; [|discriminate].
    cbn [rbind]. destruct (is_zero r); [discriminate|].
    cbn [rbind]. intros H; inversion H.
    apply div_sign; [apply mul_sign|].
    + now apply one_time_fees_sign in E.
    + apply (of_int_sign 10000); [lia|exact E1].
    + apply (of_int_sign (monthly_price self)); [lia|exact E2].
  - unfold scrap_other_fees, bind, get_self, lift. rewrite E. discriminate.
Qed.

Lemma fees_never_negative_witness :
  fee_of_text (lit "-2" ++ man_en) = Ok (of_Z 2) /\
  is_negative (of_Z 2) = false.
Proof.
  split; [vm_compute; reflexivity|].
  apply (proj1 fees_never_negative (lit "-2" ++ man_en)).
  vm_compute. reflexivity.
Defined.

(* ================================================================== *)
(** * Further properties: the one-time fees                              *)
(* ================================================================== *)

Lemma lstrip_app_run (chars w y : str) :
  all_in chars w = true -> lstrip chars (w ++ y) = lstrip chars y.
Proof.
  induction w as [|c w IH]; simpl; [reflexivity|].
  intros H. apply andb_prop in H as [Hc Hw]. rewrite Hc. now apply IH.
Qed.

Lemma lstrip_app_stop (chars a b : str) :
  (forall c, In c b -> mem_char c chars = false) ->
  lstrip chars (a ++ b) = lstrip chars a ++ b.
Proof.
  intros H. induction a as [|c a IH]; simpl.
  - destruct b as [|c b]; [reflexivity|]. simpl.
    now rewrite (H c (or_introl eq_refl)).
  - destruct (mem_char c chars); [exact IH|reflexivity].
Qed.

Lemma rstrip_app_keep (chars w u : str) :
  (forall c, In c w -> mem_char c chars = false) ->
  rstrip chars (w ++ u) = w ++ rstrip chars u.
Proof.
  intros H. unfold rstrip. rewrite rev_app_distr, lstrip_app_stop.
  - now rewrite rev_app_distr, rev_involutive.
  - intros c Hc. apply H. now apply in_rev.
Qed.

Lemma rstrip_suffix (chars a suffix : str) :
  all_in chars suffix = true -> ends_in chars a = false ->
  rstrip chars (a ++ suffix) = a.
Proof.
  intros Hs Ha. unfold rstrip. rewrite rev_app_distr.
  rewrite lstrip_app_run by (now rewrite all_in_rev).
  unfold ends_in in Ha. destruct (rev a) as [|c t] eqn:E.
  - simpl. apply (f_equal (@rev char)) in E. rewrite rev_involutive in E.
    now rewrite E.
  - simpl in Ha |- *. rewrite Ha. rewrite <- E. apply rev_involutive.
Qed.

Lemma lstrip_ext_in (A B s : str) :
  (forall c, In c s -> mem_char c A = mem_char c B) ->
  lstrip A s = lstrip B s.
Proof.
  induction s as [|c t IH]; intros H; simpl; [reflexivity|].
  rewrite (H c (or_introl eq_refl)).
  destruct (mem_char c B); [|reflexivity].
  apply IH. intros x Hx. apply H. now right.
Qed.

Lemma replace_app (old : char) (new a b : str) :
  replace old new (a ++ b) = replace old new a ++ replace old new b.
Proof. apply flat_map_app. Qed.

Lemma replace_absent (old : char) (new s : str) :
  ~ In old s -> replace old new s = s.
Proof.
  induction s as [|c t IH]; intros H; simpl; [reflexivity|].
  destruct (char_eqb c old) eqn:E.
  - apply N.eqb_eq in E. subst c. exfalso. apply H. now left.
  - simpl. f_equal. apply IH. intros Hin. apply H. now right.
Qed.

(** White space is none of the characters the scraper strips or replaces. *)
Lemma whitespace_plain (c : char) :
  mem_char c number_space = true ->
  c <> MAN /\ c <> YEN /\ c <> MINUS /\ c <> 109%N /\ c <> 50%N.
Proof.
  intros H. repeat split; intros E; subst c; vm_compute in H; discriminate.
Qed.

(** [float] ignores white space at the head of its argument. *)
Lemma of_str_lead (w y : str) :
  all_in number_space w = true -> of_str (w ++ y) = of_str y.
Proof.
  intros H. unfold of_str, strip_number. now rewrite lstrip_app_run.
Qed.

Section Redundant.

Variables (W R : str).
Hypothesis W_white : forall c, mem_char c W = true -> mem_char c number_space = true.
Hypothesis R_plain : forall c, mem_char c number_space = true -> mem_char c R = false.

Lemma all_in_white (w : str) : all_in W w = true -> all_in number_space w = true.
Proof.
  unfold all_in. rewrite !forallb_forall. intros H c Hc. apply W_white, H, Hc.
Qed.

(** Stripping white space on the left before stripping [R] on the right
    and converting changes nothing. *)
Lemma of_str_lstrip_redundant (t : str) :
  of_str (rstrip R (lstrip W t)) = of_str (rstrip R t).
Proof.
  destruct (lstrip_decompose W t) as (pre & E & Hall & _).
  apply all_in_white in Hall.
  rewrite E at 2. rewrite rstrip_app_keep, of_str_lead; auto.
  intros c Hc. apply R_plain.
  unfold all_in in Hall. rewrite forallb_forall in Hall. now apply Hall.
Qed.

Lemma of_str_replace_lstrip_redundant (t : str) :
  of_str (replace MINUS (lit "0") (rstrip R (lstrip W t))) =
  of_str (replace MINUS (lit "0") (rstrip R t)).
Proof.
  destruct (lstrip_decompose W t) as (pre & E & Hall & _).
  apply all_in_white in Hall.
  assert (P : forall c, In c pre -> mem_char c number_space = true).
  { unfold all_in in Hall. rewrite forallb_forall in Hall. exact Hall. }
  rewrite E at 2. rewrite rstrip_app_keep by (intros c Hc; apply R_plain, P, Hc).
  rewrite replace_app, (replace_absent MINUS (lit "0") pre), of_str_lead; auto.
  intros Hin. apply P, whitespace_plain in Hin. tauto.
Qed.

End Redundant.

Lemma crlf_tabs_white (n : nat) (c : char) :
  mem_char c (crlf_tabs (S n)) = true -> mem_char c number_space = true.
Proof.
  rewrite mem_crlf_tabs. unfold mem_char. cbn [existsb].
  intros H. repeat (apply orb_prop in H as [H|H]); try discriminate;
    apply N.eqb_eq in H; subst c; reflexivity.
Qed.

Lemma man_en_plain (c : char) :
  mem_char c number_space = true -> mem_char c man_en = false.
Proof.
  intros H. apply whitespace_plain in H as (H1 & H2 & _).
  unfold mem_char, man_en. cbn [existsb].
  destruct (char_eqb c MAN) eqn:E1; [apply N.eqb_eq in E1; tauto|].
  destruct (char_eqb c YEN) eqn:E2; [apply N.eqb_eq in E2; tauto|].
  reflexivity.
Qed.

Lemma m2_plain (c : char) :
  mem_char c number_space = true -> mem_char c (lit "m2") = false.
Proof.
  intros H. apply whitespace_plain in H as (_ & _ & _ & H1 & H2).
  unfold mem_char. cbn [lit existsb].
  change (N_of_ascii "m") with 109%N. change (N_of_ascii "2") with 50%N.
  destruct (char_eqb c 109%N) eqn:E1; [apply N.eqb_eq in E1; tauto|].
  destruct (char_eqb c 50%N) eqn:E2; [apply N.eqb_eq in E2; tauto|].
  reflexivity.
Qed.

(** X12.  The [lstrip] calls in front of the conversions change no result,
    since [float] ignores leading white space itself: the guarantee fee, the
    rent and the area are read from the unstripped text as well; the same
    holds for the other fees on every text without the letter r, the
    character that line 106 strips where a carriage return was meant. *)
Theorem leading_strip_redundant :
  (forall t, fee_of_text (lstrip (crlf_tabs 12) t) = fee_of_text t) /\
  (forall t, ~ In LETTER_R t ->
     fee_of_text (lstrip (lit "r" ++ LF :: repeat TAB 12) t) = fee_of_text t) /\
  (forall raw, price_of_text raw =
     rbind (of_str (rstrip man_en raw))
           (fun x => rbind (mul_int x 10000) to_int)) /\
  (forall raw, surface_of_text raw = of_str (rstrip (lit "m2") raw)).
Proof.
  repeat split.
  - intros t. unfold fee_of_text.
    apply of_str_replace_lstrip_redundant;
      [apply crlf_tabs_white|apply man_en_plain].
  - intros t Hr. unfold fee_of_text.
    rewrite (lstrip_ext_in (lit "r" ++ LF :: repeat TAB 12) [LF; TAB] t).
    + apply of_str_replace_lstrip_redundant; [|apply man_en_plain].
      intros c H. unfold mem_char in H. cbn [existsb] in H.
      repeat (apply orb_prop in H as [H|H]); try discriminate;
        apply N.eqb_eq in H; subst c; reflexivity.
    + intros c Hc. unfold mem_char. cbn [lit app repeat existsb].
      change (N_of_ascii "r") with LETTER_R.
      destruct (char_eqb c LETTER_R) eqn:E.
      * apply N.eqb_eq in E. subst c. tauto.
      * destruct (char_eqb c LF), (char_eqb c TAB); reflexivity.
  - intros raw. unfold price_of_text.
    rewrite (of_str_lstrip_redundant (crlf_tabs 10) man_en
               (crlf_tabs_white 9) man_en_plain raw).
    reflexivity.
  - intros raw. unfold surface_of_text.
    apply of_str_lstrip_redundant; [apply crlf_tabs_white|apply m2_plain].
Qed.

Lemma leading_strip_redundant_witness :
  fee_of_text (lstrip (lit "r" ++ LF :: repeat TAB 12)
                 (CR :: LF :: TAB :: lit "5" ++ man_en)) =
  fee_of_text (CR :: LF :: TAB :: lit "5" ++ man_en).
Proof.
  apply (proj1 (proj2 leading_strip_redundant)
           (CR :: LF :: TAB :: lit "5" ++ man_en)).
  vm_compute. intros H. repeat (destruct H as [H|H]; [discriminate H|]).
  exact H.
Defined.

Lemma flat_map_head {A B} (f : A -> list B) (x : A) (l : list A)
    (y : B) (tl : list B) :
  f x = y :: tl -> exists tl', flat_map f (x :: l) = y :: tl'.
Proof. intros H. simpl. rewrite H. eexists. reflexivity. Qed.

Lemma is_digit_man : is_digit MAN = false.
Proof. reflexivity. Qed.

(** On an amount followed by the suffix of ten thousands of yen, the
    numeric branch of the fee pattern matches the amount and the suffix
    first, whatever comes after. *)
Lemma fee_amount_head (d : str) (fraction : option str) (post : str)
    (g : groups) :
  digits d -> fraction_digits fraction = true ->
  exists tl,
    rmatch (Seq (Plus Digit)
              (Seq (Opt Dot) (Seq (Star Digit) (lits man_en))))
           (amount_text d fraction ++ man_en ++ post) g =
    (amount_text d fraction ++ man_en, post, g) :: tl.
Proof.
  intros [Hd1 Hd2] Hf.
  destruct fraction as [f|]; cbn [amount_text fraction_digits] in *.
  - destruct (plus_head Digit d (DOT :: f ++ man_en ++ post) g Hd1 Hd2
                is_digit_dot) as [tl1 E1].
    destruct (star_splits_head Digit f (man_en ++ post) Hf is_digit_man)
      as [tl2 E2].
    change (rmatch (Seq (Plus Digit) ?r) ?s g)
      with (flat_map (fun '(w1, s1, g1) =>
                        map (fun '(w2, s2, g2) => (w1 ++ w2, s2, g2))
                            (rmatch r s1 g1))
                     (rmatch (Plus Digit) s g)).
    rewrite <- (app_assoc d (DOT :: f) (man_en ++ post)). cbn [app]. rewrite E1.
    eapply flat_map_head.
    change (rmatch (Seq (Opt Dot) (Seq (Star Digit) (lits man_en)))
              (DOT :: f ++ man_en ++ post) g)
      with (map (fun '(w2, s2, g2) => ([DOT] ++ w2, s2, g2))
                (flat_map (fun '(w1, s1, g1) =>
                             map (fun '(w2, s2, g2) => (w1 ++ w2, s2, g2))
                                 (rmatch (lits man_en) s1 g1))
                          (map (fun '(w, s') => (w, s', g))
                               (star_splits Digit (f ++ man_en ++ post))))
            ++ flat_map (fun '(w1, s1, g1) =>
                           map (fun '(w2, s2, g2) => (w1 ++ w2, s2, g2))
                               (rmatch (Seq (Star Digit) (lits man_en)) s1 g1))
                        [([], DOT :: f ++ man_en ++ post, g)]).
    rewrite E2. cbn [map flat_map].
    rewrite rmatch_lits, starts_with_app, skipn_app, skipn_all, Nat.sub_diag.
    cbn [skipn map app].
    rewrite <- (app_assoc d (DOT :: f) man_en). reflexivity.
  - destruct (plus_head Digit d (man_en ++ post) g Hd1 Hd2 is_digit_man)
      as [tl1 E1].
    change (rmatch (Seq (Plus Digit) ?r) ?s g)
      with (flat_map (fun '(w1, s1, g1) =>
                        map (fun '(w2, s2, g2) => (w1 ++ w2, s2, g2))
                            (rmatch r s1 g1))
                     (rmatch (Plus Digit) s g)).
    rewrite E1. eapply flat_map_head.
    change (rmatch (Seq (Opt Dot) (Seq (Star Digit) (lits man_en)))
              (man_en ++ post) g)
      with [(man_en, post, g)].
    reflexivity.
Qed.

(** The search for a fee on a text that begins with an amount. *)
Lemma search_fee_amount (d : str) (fraction : option str) (post : str) :
  digits d -> fraction_digits fraction = true ->
  search EXTRA_FEES_REGEX (amount_text d fraction ++ man_en ++ post) =
  Some {| whole := amount_text d fraction ++ man_en;
          captures := [(1%nat, amount_text d fraction ++ man_en)] |}.
Proof.
  intros Hd Hf. rewrite search_unfold. unfold EXTRA_FEES_REGEX.
  destruct (fee_amount_head d fraction post [] Hd Hf) as [tl E].
  change (rmatch (Group 1 (Alt ?a ?b)) ?s [])
    with (map (fun '(w, s', g') => (w, s', (1%nat, w) :: g'))
              (rmatch a s [] ++ rmatch b s [])).
  rewrite E. reflexivity.
Qed.

Lemma digit_plain (c : char) :
  is_digit c = true -> c <> MAN /\ c <> YEN /\ c <> MINUS.
Proof.
  intros H. repeat split; intros E; subst c; vm_compute in H; discriminate.
Qed.

Lemma digits_plain (w : str) (c : char) :
  forallb is_digit w = true -> In c w -> c <> MAN /\ c <> YEN /\ c <> MINUS.
Proof.
  rewrite forallb_forall. intros H Hin. apply digit_plain, H, Hin.
Qed.

Lemma ends_in_app_cons (chars a : str) (c : char) (b : str) :
  ends_in chars (a ++ c :: b) = ends_in chars (c :: b).
Proof.
  unfold ends_in. rewrite rev_app_distr. simpl.
  destruct (rev b); reflexivity.
Qed.

Lemma ends_in_false (chars w : str) :
  (forall c, In c w -> mem_char c chars = false) -> ends_in chars w = false.
Proof.
  intros H. unfold ends_in. destruct (rev w) as [|c t] eqn:E; [reflexivity|].
  simpl. apply H. apply in_rev. rewrite E. now left.
Qed.

Lemma not_man_en (c : char) : c <> MAN -> c <> YEN -> mem_char c man_en = false.
Proof.
  intros H1 H2. unfold mem_char, man_en. cbn [existsb].
  destruct (char_eqb c MAN) eqn:E1; [apply N.eqb_eq in E1; tauto|].
  destruct (char_eqb c YEN) eqn:E2; [apply N.eqb_eq in E2; tauto|].
  reflexivity.
Qed.

(** The characters of an amount are digits and the point. *)
Lemma amount_plain (d : str) (fraction : option str) (c : char) :
  digits d -> fraction_digits fraction = true ->
  In c (amount_text d fraction) -> c <> MAN /\ c <> YEN /\ c <> MINUS.
Proof.
  intros [_ Hd] Hf Hin. destruct fraction as [f|]; cbn in Hin, Hf.
  - apply in_app_or in Hin as [Hin|[Hin|Hin]].
    + exact (digits_plain d c Hd Hin).
    + subst c. repeat split; discriminate.
    + exact (digits_plain f c Hf Hin).
  - exact (digits_plain d c Hd Hin).
Qed.

(** The normalisation of an amount with its suffix converts the amount. *)
Lemma fee_of_amount (d : str) (fraction : option str) :
  digits d -> fraction_digits fraction = true ->
  fee_of_text (amount_text d fraction ++ man_en) =
  of_str (amount_text d fraction).
Proof.
  intros Hd Hf. unfold fee_of_text.
  rewrite rstrip_suffix; [|reflexivity|].
  - rewrite replace_absent; [reflexivity|].
    intros Hin. apply (amount_plain d fraction) in Hin; tauto.
  - apply ends_in_false. intros c Hin.
    apply (amount_plain d fraction) in Hin as (H1 & H2 & _); auto.
    now apply not_man_en.
Qed.

(** X13.  When the text of the second block begins with an amount and the
    suffix of ten thousands of yen, [reikin] and [shikikin] are both that
    amount, whatever follows it in the block: a second amount in the block
    is never read. *)
Theorem only_first_amount_is_read
    (s : node) (b1 : node) (d : str) (fraction : option str) (post : str) :
  nth_error (property_data_bodies s) 1 = Some b1 ->
  text b1 = amount_text d fraction ++ man_en ++ post ->
  digits d -> fraction_digits fraction = true ->
  one_time_fees s =
  rbind (of_str (amount_text d fraction)) (fun amount =>
  rbind (index (property_data_bodies s) 2) (fun b2 =>
  rbind (fee_of_text (lstrip (crlf_tabs 12) (text b2))) (fun hoken =>
  rbind (index (property_data_bodies s) 3) (fun b3 =>
  rbind (fee_of_text (lstrip (lit "r" ++ LF :: repeat TAB 12) (text b3)))
        (fun other_fees => Ok (amount, amount, hoken, other_fees)))))).
Proof.
  intros H1 T1 Hd Hf. unfold one_time_fees.
  rewrite (index_ok _ _ _ H1). cbn [rbind]. rewrite T1.
  rewrite (search_fee_amount d fraction post Hd Hf).
  cbn [not_none rbind group whole captures lookup Nat.eqb].
  rewrite (fee_of_amount d fraction Hd Hf).
  destruct (of_str (amount_text d fraction)); reflexivity.
Qed.

Lemma only_first_amount_is_read_witness :
  one_time_fees
    (listing_page [lit "-"; lit "5" ++ man_en ++ lit "/" ++ lit "10" ++ man_en;
                   lit "-"; lit "-"]) =
  Ok (of_Z 5, of_Z 5, of_Z 0, of_Z 0).
Proof.
  rewrite (only_first_amount_is_read
             (listing_page [lit "-"; lit "5" ++ man_en ++ lit "/" ++ lit "10" ++ man_en;
                            lit "-"; lit "-"])
             (block "property_data-body"
                (lit "5" ++ man_en ++ lit "/" ++ lit "10" ++ man_en))
             (lit "5") None (lit "/" ++ lit "10" ++ man_en)).
  - vm_compute. reflexivity.
  - reflexivity.
  - reflexivity.
  - split; [discriminate|reflexivity].
  - reflexivity.
Defined.

(** X14.  On a page with fewer than four blocks of class
    [property_data-body], [scrap_other_fees] never returns: it raises, with
    [IndexError] when there are fewer than two blocks, and leaves the
    instance as it was. *)
Theorem scrap_other_fees_few_blocks (self : SuumoScrapper) :
  ((List.length (property_data_bodies (soup self)) < 2)%nat ->
   scrap_other_fees self = (self, [], Raise IndexError)) /\
  ((List.length (property_data_bodies (soup self)) < 4)%nat ->
   exists e, scrap_other_fees self = (self, [], Raise e)).
Proof.
  assert (R : forall e, one_time_fees (soup self) = Raise e ->
                        scrap_other_fees self = (self, [], Raise e)).
  { intros e H. unfold scrap_other_fees, bind, get_self, lift. now rewrite H. }
  split.
  - intros H. apply R. unfold one_time_fees.
    rewrite index_out_of_range by lia. reflexivity.
  - intros H.
    destruct (one_time_fees (soup self)) as [fees|e] eqn:E;
      [|exists e; now apply R].
    exfalso. revert E. unfold one_time_fees.
    repeat match goal with
           | |- context [index ?l 3] =>
               rewrite (index_out_of_range l 3) by lia
           | |- context [rbind ?r _] =>
               destruct r; cbn [rbind]; [|discriminate]
           end.
    discriminate.
Qed.

Lemma scrap_other_fees_few_blocks_witness :
  scrap_other_fees (sample [lit "-"] 50000) =
  (sample [lit "-"] 50000, [], Raise IndexError).
Proof.
  apply (proj1 (scrap_other_fees_few_blocks (sample [lit "-"] 50000))).
  vm_compute. lia.
Defined.

(* ================================================================== *)
(** * Further properties: stations and positional fields                 *)
(* ================================================================== *)

(** X15.  [scrap_closest_stations] raises, with [IndexError], exactly when
    the page has fewer than three blocks of class
    [property_view_detail-body]; otherwise it returns a string, leaves the
    instance as it was and prints nothing. *)
Theorem scrap_closest_stations_bounds (self : SuumoScrapper) :
  let bodies := find_all (soup self) "div" "property_view_detail-body" in
  ((List.length bodies < 3)%nat <->
   scrap_closest_stations self = (self, [], Raise IndexError)) /\
  ((3 <= List.length bodies)%nat ->
   exists stations, scrap_closest_stations self = (self, [], Ok stations)).
Proof.
  intros bodies.
  assert (E : scrap_closest_stations self =
              match nth_error bodies 2 with
              | Some c =>
                  (self, [],
                   Ok (slice_to (-1)
                         (fold_left (fun acc station => acc ++ station ++ [LF])
                            (map text (find_all c "div" "property_view_detail-text"))
                            [])))
              | None => (self, [], Raise IndexError)
              end).
  { unfold scrap_closest_stations, station_texts, bind, get_self, lift, ret,
      index. fold bodies. destruct (nth_error bodies 2); reflexivity. }
  rewrite E. split; [split|].
  - intros H. assert (N : nth_error bodies 2 = None)
      by (apply nth_error_None; lia).
    now rewrite N.
  - destruct (nth_error bodies 2) eqn:N; [discriminate|].
    intros _. apply nth_error_None in N. lia.
  - intros H. destruct (nth_error bodies 2) eqn:N.
    + eexists. reflexivity.
    + apply nth_error_None in N. lia.
Qed.

Lemma scrap_closest_stations_bounds_witness :
  let self := {| soup := Tag "[document]" []
                   [block "property_view_detail-body" (lit "a");
                    block "property_view_detail-body" (lit "b")];
                 map_soup := []; monthly_price := 0 |} in
  scrap_closest_stations self = (self, [], Raise IndexError).
Proof.
  intros self.
  apply (proj1 (proj1 (scrap_closest_stations_bounds self))).
  vm_compute. lia.
Defined.

Lemma split_plain (f : str) : ~ In LF f -> split LF f = [f].
Proof.
  induction f as [|c f IH]; intros H; simpl; [reflexivity|].
  destruct (char_eqb c LF) eqn:E.
  - apply N.eqb_eq in E. subst c. exfalso. apply H. now left.
  - rewrite IH; [reflexivity|]. intros Hin. apply H. now right.
Qed.

Lemma split_line (f rest : str) :
  ~ In LF f -> split LF (f ++ LF :: rest) = f :: split LF rest.
Proof.
  induction f as [|c f IH]; intros H; simpl; [reflexivity|].
  destruct (char_eqb c LF) eqn:E.
  - apply N.eqb_eq in E. subst c. exfalso. apply H. now left.
  - rewrite IH; [reflexivity|]. intros Hin. apply H. now right.
Qed.

(** Splitting at the line feeds undoes joining with line feeds. *)
Lemma split_join (frags : list str) :
  frags <> [] -> (forall f, In f frags -> ~ In LF f) ->
  split LF (join [LF] frags) = frags.
Proof.
  induction frags as [|x l IH]; intros Hne Hlf; [congruence|].
  destruct l as [|y l].
  - simpl. apply split_plain. apply Hlf. now left.
  - change (join [LF] (x :: y :: l)) with (x ++ LF :: join [LF] (y :: l)).
    rewrite split_line by (apply Hlf; now left).
    rewrite IH; [reflexivity|discriminate|].
    intros f Hf. apply Hlf. now right.
Qed.

(** X16.  When there is at least one station text and none contains a
    line feed, splitting what [scrap_closest_stations] returns at the line
    feeds gives back the station texts, in order.  The result does not
    tell no station from one station with an empty text: both give the
    empty string. *)
Theorem scrap_closest_stations_round_trip (self : SuumoScrapper) :
  (forall frags,
     station_texts (soup self) = Ok frags ->
     frags <> [] -> (forall f, In f frags -> ~ In LF f) ->
     exists stations,
       scrap_closest_stations self = (self, [], Ok stations) /\
       split LF stations = frags) /\
  (station_texts (soup self) = Ok [[]] ->
   scrap_closest_stations self = (self, [], Ok [])) /\
  (station_texts (soup self) = Ok [] ->
   scrap_closest_stations self = (self, [], Ok [])).
Proof.
  split; [|split].
  - intros frags H Hne Hlf.
    exists (join [LF] frags). split; [|now apply split_join].
    rewrite (scrap_closest_stations_run self _ H).
    now rewrite (concat_lines_join frags Hne), slice_drop_last.
  - intros H. rewrite (scrap_closest_stations_run self _ H). reflexivity.
  - intros H. rewrite (scrap_closest_stations_run self _ H). reflexivity.
Qed.

Lemma scrap_closest_stations_round_trip_witness :
  let self := {| soup := stations_page [lit "Line A 5 min"; lit "Line B 9 min"];
                 map_soup := []; monthly_price := 0 |} in
  exists stations,
    scrap_closest_stations self = (self, [], Ok stations) /\
    split LF stations = [lit "Line A 5 min"; lit "Line B 9 min"].
Proof.
  intros self.
  apply (proj1 (scrap_closest_stations_round_trip self)).
  - vm_compute. reflexivity.
  - discriminate.
  - intros f [<-|[<-|[]]]; vm_compute;
      intros H; repeat (destruct H as [H|H]; [discriminate H|]); exact H.
Defined.

(** X17.  What a positional lookup returns is the text of its block
    without a leading run of carriage returns, line feeds and tabs: the
    text is that run followed by the result, the result does not begin with
    one of these characters, and nothing is removed at its end. *)
Theorem positional_lookup_strips_prefix
    (lookup : M str) (i : nat) (self : SuumoScrapper) (b : node) :
  In (lookup, i) positional_lookups ->
  nth_error (property_data_bodies (soup self)) i = Some b ->
  exists value pre,
    lookup self = (self, [], Ok value) /\
    text b = pre ++ value /\
    all_in [CR; LF; TAB] pre = true /\
    starts_in [CR; LF; TAB] value = false.
Proof.
  intros Hin Hb.
  assert (E : lookup self = (self, [], Ok (lstrip (crlf_tabs 11) (text b)))).
  { simpl in Hin.
    destruct Hin as [H|[H|[H|[]]]]; inversion H; subst;
      (etransitivity; [apply positional_lookup_run|rewrite Hb; reflexivity]). }
  rewrite (lstrip_ext (crlf_tabs 11) [CR; LF; TAB]) in E
    by (intros c; apply (mem_crlf_tabs 10)).
  destruct (lstrip_decompose [CR; LF; TAB] (text b)) as (pre & E1 & A1 & S1).
  exists (lstrip [CR; LF; TAB] (text b)), pre. auto.
Qed.

Lemma positional_lookup_strips_prefix_witness :
  exists value pre,
    scrap_age (sample sample_fields 0) = (sample sample_fields 0, [], Ok value) /\
    lit "12" = pre ++ value /\
    all_in [CR; LF; TAB] pre = true /\
    starts_in [CR; LF; TAB] value = false.
Proof.
  apply (positional_lookup_strips_prefix scrap_age 8 (sample sample_fields 0)
           (block "property_data-body" (lit "12"))).
  - right. right. left. reflexivity.
  - reflexivity.
Defined.

(** X18.  The positional lookups read one list of blocks: when
    [scrap_age], which reads the ninth block, returns, [scrap_bukken_type]
    and [scrap_madori] return too; when [scrap_madori], which reads the
    fifth, raises, the other two raise [IndexError] as well. *)
Theorem positional_lookups_together (self : SuumoScrapper) :
  ((exists age, scrap_age self = (self, [], Ok age)) ->
   (exists type, scrap_bukken_type self = (self, [], Ok type)) /\
   (exists madori, scrap_madori self = (self, [], Ok madori))) /\
  ((exists e, scrap_madori self = (self, [], Raise e)) ->
   scrap_bukken_type self = (self, [], Raise IndexError) /\
   scrap_age self = (self, [], Raise IndexError)).
Proof.
  unfold scrap_age, scrap_bukken_type, scrap_madori.
  rewrite !positional_lookup_run.
  set (bodies := property_data_bodies (soup self)).
  split.
  - intros [age H].
    destruct (nth_error bodies 8) eqn:N8; [|discriminate].
    assert (L : (8 < List.length bodies)%nat)
      by (apply nth_error_Some; congruence).
    destruct (nth_error bodies 7) eqn:N7;
      [|apply nth_error_None in N7; lia].
    destruct (nth_error bodies 4) eqn:N4;
      [|apply nth_error_None in N4; lia].
    split; eexists; reflexivity.
  - intros [e H].
    destruct (nth_error bodies 4) eqn:N4; [discriminate|].
    apply nth_error_None in N4.
    assert (N7 : nth_error bodies 7 = None) by (apply nth_error_None; lia).
    assert (N8 : nth_error bodies 8 = None) by (apply nth_error_None; lia).
    rewrite N7, N8. split; reflexivity.
Qed.

Lemma positional_lookups_together_witness :
  scrap_bukken_type (sample [lit "a"; lit "b"; lit "c"] 0) =
    (sample [lit "a"; lit "b"; lit "c"] 0, [], Raise IndexError) /\
  scrap_age (sample [lit "a"; lit "b"; lit "c"] 0) =
    (sample [lit "a"; lit "b"; lit "c"] 0, [], Raise IndexError).
Proof.
  apply (proj2 (positional_lookups_together (sample [lit "a"; lit "b"; lit "c"] 0))).
  exists IndexError. vm_compute. reflexivity.
Defined.

(** X19.  [scrap_surface] raises [IndexError] on a page with fewer than
    six blocks and otherwise raises nothing but [ValueError].  When the text
    of the sixth block is a text that ends with neither the letter m nor the
    digit 2, followed by the suffix [m2], the result is the conversion of
    that text. *)
Theorem scrap_surface_spec (self : SuumoScrapper) :
  ((List.length (property_data_bodies (soup self)) <= 5)%nat ->
   scrap_surface self = (self, [], Raise IndexError)) /\
  (forall b e,
     nth_error (property_data_bodies (soup self)) 5 = Some b ->
     scrap_surface self = (self, [], Raise e) -> e = ValueError) /\
  (forall b num,
     nth_error (property_data_bodies (soup self)) 5 = Some b ->
     text b = num ++ lit "m2" ->
     ends_in (lit "m2") num = false ->
     scrap_surface self = (self, [], of_str num)).
Proof.
  unfold scrap_surface, bind, get_self, lift.
  split; [|split].
  - intros H. rewrite (index_out_of_range _ 5 H). reflexivity.
  - intros b e Hb. rewrite (index_ok _ _ _ Hb). cbn [rbind].
    intros H. inversion H as [H1]. unfold surface_of_text in H1.
    now apply of_str_raises in H1.
  - intros b num Hb Ht Hend. rewrite (index_ok _ _ _ Hb). cbn [rbind].
    rewrite Ht. unfold surface_of_text.
    rewrite (of_str_lstrip_redundant (crlf_tabs 11) (lit "m2")
               (crlf_tabs_white 10) m2_plain).
    rewrite rstrip_suffix; [reflexivity|reflexivity|exact Hend].
Qed.

Lemma scrap_surface_spec_witness :
  let fields := [lit "-"; lit "-"; lit "-"; lit "-"; lit "1K"; lit "30.5m2"] in
  scrap_surface (sample fields 0) = (sample fields 0, [], of_str (lit "30.5")).
Proof.
  intros fields.
  apply (proj2 (proj2 (scrap_surface_spec (sample fields 0)))
           (block "property_data-body" (lit "30.5m2")) (lit "30.5"));
    reflexivity.
Defined.

(* ================================================================== *)
(** * Further properties: exact conversions                              *)
(* ================================================================== *)

(** The number of binary digits of a positive integer. *)
Lemma digits2_size (p : positive) : digits2_pos p = Pos.size p.
Proof. induction p; simpl; congruence. Qed.

Lemma Zdigits2_log2 (n : Z) : 0 < n -> Zdigits2 n = Z.log2 n + 1.
Proof.
  destruct n as [|p|p]; try lia. intros _. simpl. rewrite digits2_size.
  destruct p; simpl; lia.
Qed.

Lemma Zdigits2_shift (n k : Z) :
  0 < n -> 0 <= k -> Zdigits2 (n * 2 ^ k) = Z.log2 n + 1 + k.
Proof.
  intros Hn Hk. rewrite Zdigits2_log2 by (apply Z.mul_pos_pos; lia).
  rewrite Z.log2_mul_pow2 by lia. lia.
Qed.

Lemma fexp_small (d : Z) : 1 <= d -> fexp prec emax d = d - 53.
Proof. intros H. unfold fexp, emin, prec, emax. lia. Qed.

(** Shifting an exact multiple of a power of two to the right loses
    nothing. *)
Lemma shr_exact (p : positive) :
  forall m, 0 <= m ->
    iter_pos shr_1 p
      {| shr_m := m * 2 ^ Zpos p; shr_r := false; shr_s := false |} =
    {| shr_m := m; shr_r := false; shr_s := false |}.
Proof.
  assert (S1 : forall m, 0 <= m ->
            shr_1 {| shr_m := m * 2; shr_r := false; shr_s := false |} =
            {| shr_m := m; shr_r := false; shr_s := false |}).
  { intros m Hm. destruct m as [|q|q]; try lia; [reflexivity|].
    simpl. rewrite Pos.mul_comm. reflexivity. }
  induction p as [p IH|p IH|]; intros m Hm; cbn [iter_pos].
  - replace (m * 2 ^ Zpos p~1) with ((m * 2 ^ Zpos p * 2 ^ Zpos p) * 2).
    + rewrite S1 by (repeat apply Z.mul_nonneg_nonneg; lia).
      rewrite IH by (apply Z.mul_nonneg_nonneg; lia). now apply IH.
    + assert (E : 2 ^ Zpos p~1 = 2 * (2 ^ Zpos p * 2 ^ Zpos p)).
      { rewrite <- Z.pow_add_r, <- Z.pow_succ_r by lia. f_equal. lia. }
      rewrite E. ring.
  - replace (m * 2 ^ Zpos p~0) with (m * 2 ^ Zpos p * 2 ^ Zpos p).
    + rewrite IH by (apply Z.mul_nonneg_nonneg; lia). now apply IH.
    + assert (E : 2 ^ Zpos p~0 = 2 ^ Zpos p * 2 ^ Zpos p).
      { rewrite <- Z.pow_add_r by lia. f_equal. lia. }
      rewrite E. ring.
  - change (2 ^ 1) with 2. now apply S1.
Qed.

(** The canonical float of an integer below [2 ^ 53]. *)
Lemma whole_float_pos (n : Z) :
  0 < n ->
  whole_float n =
  S754_finite false (Z.to_pos (n * 2 ^ (52 - Z.log2 n))) (Z.log2 n - 52).
Proof. destruct n; try lia. reflexivity. Qed.

(** Rounding an integer below [2 ^ 53] that is written with enough digits. *)
Lemma shr_fexp_exact (n k : Z) :
  0 < n < 2 ^ 53 -> 52 - Z.log2 n <= k ->
  shr_fexp prec emax (n * 2 ^ k) (- k) loc_Exact =
  ({| shr_m := n * 2 ^ (52 - Z.log2 n); shr_r := false; shr_s := false |},
   Z.log2 n - 52).
Proof.
  intros Hn Hk.
  assert (L : 0 <= Z.log2 n < 53).
  { split; [apply Z.log2_nonneg|]. apply Z.log2_lt_pow2; lia. }
  unfold shr_fexp. rewrite Zdigits2_shift by lia.
  replace (Z.log2 n + 1 + k + - k) with (Z.log2 n + 1) by lia.
  rewrite fexp_small by lia. cbn [shr_record_of_loc].
  unfold shr.
  destruct (Z.log2 n + 1 - 53 - - k) as [|j|j] eqn:E; try lia.
  - replace k with (52 - Z.log2 n) by lia. f_equal. lia.
  - replace (n * 2 ^ k) with (n * 2 ^ (52 - Z.log2 n) * 2 ^ Zpos j).
    + rewrite shr_exact by (apply Z.mul_nonneg_nonneg; lia). f_equal. lia.
    + rewrite <- Z.mul_assoc, <- Z.pow_add_r by lia. f_equal. f_equal. lia.
Qed.

Lemma round_exact (n k : Z) :
  0 < n < 2 ^ 53 -> 52 - Z.log2 n <= k ->
  binary_round_aux prec emax false (n * 2 ^ k) (- k) loc_Exact = whole_float n.
Proof.
  intros Hn Hk.
  assert (L : 0 <= Z.log2 n < 53).
  { split; [apply Z.log2_nonneg|]. apply Z.log2_lt_pow2; lia. }
  unfold binary_round_aux. rewrite (shr_fexp_exact n k Hn Hk).
  cbn [shr_m loc_of_shr_record round_nearest_even].
  replace (Z.log2 n - 52) with (- (52 - Z.log2 n)) at 1 by lia.
  rewrite (shr_fexp_exact n (52 - Z.log2 n) Hn) by lia.
  cbn [shr_m]. rewrite whole_float_pos by lia.
  assert (P : 0 < n * 2 ^ (52 - Z.log2 n)) by (apply Z.mul_pos_pos; lia).
  destruct (n * 2 ^ (52 - Z.log2 n)) as [|q|q] eqn:E; try lia.
  replace (Z.log2 n - 52 <=? emax - prec) with true
    by (symmetry; apply Z.leb_le; unfold emax, prec; lia).
  reflexivity.
Qed.

(** [float] of the numeral of an integer below [2 ^ 53] is that integer. *)
Lemma of_ratio_whole (p : positive) :
  Zpos p < 2 ^ 53 -> of_ratio false p 1 = whole_float (Zpos p).
Proof.
  intros Hp.
  assert (L : 0 <= Z.log2 (Zpos p) < 53).
  { split; [apply Z.log2_nonneg|]. apply Z.log2_lt_pow2; lia. }
  unfold of_ratio, div, SFdiv, SFdiv_core_binary.
  rewrite Zdigits2_log2 by lia.
  change (Zdigits2 1) with 1.
  replace (Z.log2 (Zpos p) + 1 + 0 - (1 + 0)) with (Z.log2 (Zpos p)) by lia.
  assert (F : fexp prec emax (Z.log2 (Zpos p)) = Z.log2 (Zpos p) - 53)
    by (unfold fexp, emin, prec, emax; lia).
  rewrite F.
  replace (Z.min (Z.log2 (Zpos p) - 53) (0 - 0)) with (Z.log2 (Zpos p) - 53) by lia.
  destruct (0 - 0 - (Z.log2 (Zpos p) - 53)) as [|s|s] eqn:E; try lia.
  rewrite Z.shiftl_mul_pow2 by lia.
  assert (D : Z.div_eucl (Zpos p * 2 ^ Zpos s) 1 = (Zpos p * 2 ^ Zpos s, 0)).
  { pose proof (Z.div_1_r (Zpos p * 2 ^ Zpos s)) as D1.
    pose proof (Z.mod_1_r (Zpos p * 2 ^ Zpos s)) as D2.
    unfold Z.div, Z.modulo in D1, D2.
    destruct (Z.div_eucl (Zpos p * 2 ^ Zpos s) 1) as [q r].
    cbv beta iota in D1, D2. now subst. }
  rewrite D. change (new_location 1 0) with loc_Exact. cbn [xorb].
  replace (Z.log2 (Zpos p) - 53) with (- Zpos s) by lia.
  apply round_exact; lia.
Qed.

(** The product of two integers, when it is below [2 ^ 53], is exact. *)
Lemma mul_whole (a b : Z) :
  0 < a -> 0 < b -> a * b < 2 ^ 53 ->
  mul (whole_float a) (whole_float b) = whole_float (a * b).
Proof.
  intros Ha Hb Hab.
  assert (Ha' : a < 2 ^ 53) by nia.
  assert (Hb' : b < 2 ^ 53) by nia.
  assert (La : 0 <= Z.log2 a < 53).
  { split; [apply Z.log2_nonneg|]. apply Z.log2_lt_pow2; lia. }
  assert (Lb : 0 <= Z.log2 b < 53).
  { split; [apply Z.log2_nonneg|]. apply Z.log2_lt_pow2; lia. }
  pose proof (Z.log2_mul_below a b Ha Hb) as Lab.
  rewrite (whole_float_pos a Ha), (whole_float_pos b Hb).
  unfold mul, SFmul. cbn [xorb].
  rewrite Pos2Z.inj_mul, !Z2Pos.id by (apply Z.mul_pos_pos; lia).
  replace (a * 2 ^ (52 - Z.log2 a) * (b * 2 ^ (52 - Z.log2 b)))
    with (a * b * 2 ^ (104 - Z.log2 a - Z.log2 b)).
  - replace (Z.log2 a - 52 + (Z.log2 b - 52))
      with (- (104 - Z.log2 a - Z.log2 b)) by lia.
    apply round_exact; lia.
  - replace (104 - Z.log2 a - Z.log2 b)
      with ((52 - Z.log2 a) + (52 - Z.log2 b)) by lia.
    rewrite Z.pow_add_r by lia. ring.
Qed.

(** [int] of the float of an integer is the integer. *)
Lemma to_int_whole (n : Z) : 0 <= n < 2 ^ 53 -> to_int (whole_float n) = Ok n.
Proof.
  intros Hn. destruct (Z.eq_dec n 0) as [->|Hz]; [reflexivity|].
  assert (L : 0 <= Z.log2 n < 53).
  { split; [apply Z.log2_nonneg|]. apply Z.log2_lt_pow2; lia. }
  rewrite whole_float_pos by lia. cbn [to_int].
  rewrite Z2Pos.id by (apply Z.mul_pos_pos; lia).
  f_equal.
  replace (Z.log2 n - 52) with (- (52 - Z.log2 n)) by lia.
  rewrite <- Z.shiftr_opp_r, Z.opp_involutive.
  rewrite Z.shiftr_div_pow2 by lia.
  apply Z.div_mul. apply Z.pow_nonzero; lia.
Qed.

(** ** Runs of digits as numerals *)

Lemma white_not_digit (c : char) :
  mem_char c number_space = true -> is_digit c = false.
Proof.
  unfold mem_char, number_space. cbn [existsb]. intros H.
  repeat (apply orb_prop in H as [H|H]); try discriminate;
    apply N.eqb_eq in H; subst c; reflexivity.
Qed.

Lemma digit_not_white (c : char) :
  is_digit c = true -> mem_char c number_space = false.
Proof.
  intros H. destruct (mem_char c number_space) eqn:E; [|reflexivity].
  apply white_not_digit in E. congruence.
Qed.

Lemma lstrip_none (chars s : str) :
  starts_in chars s = false -> lstrip chars s = s.
Proof. destruct s as [|c t]; simpl; [reflexivity|]. now intros ->. Qed.

Lemma rstrip_none (chars s : str) :
  ends_in chars s = false -> rstrip chars s = s.
Proof.
  intros H. rewrite <- (app_nil_r s) at 1. now apply rstrip_suffix.
Qed.

Lemma strip_digits (d : str) : forallb is_digit d = true -> strip_number d = d.
Proof.
  intros H. unfold strip_number.
  assert (P : forall c, In c d -> mem_char c number_space = false).
  { rewrite forallb_forall in H. intros c Hc. apply digit_not_white, H, Hc. }
  rewrite lstrip_none.
  - apply rstrip_none, ends_in_false, P.
  - destruct d as [|c t]; [reflexivity|]. apply P. now left.
Qed.

Lemma digit_value_some (c : char) :
  is_digit c = true ->
  digit_value c = Some (match digit_value c with Some v => v | None => 0 end).
Proof. unfold is_digit. destruct (digit_value c); [reflexivity|discriminate]. Qed.

Lemma digits_run_digits (d : str) :
  forallb is_digit d = true ->
  forall b,
    digits_run b d =
    (map (fun c => match digit_value c with Some v => v | None => 0 end) d, []).
Proof.
  induction d as [|c d IH]; intros H b; [reflexivity|].
  simpl in H. apply andb_prop in H as [Hc Hd].
  cbn [digits_run]. rewrite (digit_value_some c Hc) at 1.
  rewrite (IH Hd true). reflexivity.
Qed.

Lemma lower_inv (c x : char) : lower c = x -> c = x \/ (c + 32)%N = x.
Proof. unfold lower. destruct (_ && _); auto. Qed.

(** A run of digits is none of the names [float] knows. *)
Lemma digits_not_special (d name : str) (x : char) (rest : str) :
  digits d -> name = x :: rest ->
  is_digit x = false -> is_digit (x - 32)%N = false -> (32 <= x)%N ->
  str_eqb (map lower d) name = false.
Proof.
  intros [Hne Hd] -> Hx Hx' Hle. unfold str_eqb.
  destruct (list_eq_dec N.eq_dec (map lower d) (x :: rest)) as [E|]; [|reflexivity].
  destruct d as [|c t]; [discriminate|]. simpl in Hd, E.
  apply andb_prop in Hd as [Hc _]. inversion E as [[E1 E2]].
  apply lower_inv in E1 as [E1|E1].
  - subst c. congruence.
  - assert (c = (x - 32)%N) by lia. subst c. congruence.
Qed.

(** [float] of a run of digits is the float nearest to the number. *)
Lemma of_str_digits (d : str) :
  digits d -> of_str d = Ok (of_decimal false (number_of_digits d) 0).
Proof.
  intros Hd. pose proof Hd as [Hne Hall].
  unfold of_str. rewrite (strip_digits d Hall).
  assert (S : sign_of d = (false, d)).
  { destruct d as [|c t]; [congruence|]. simpl in Hall |- *.
    apply andb_prop in Hall as [Hc _].
    destruct (char_eqb c MINUS) eqn:E1;
      [apply N.eqb_eq in E1; subst c; discriminate|].
    destruct (char_eqb c PLUS) eqn:E2;
      [apply N.eqb_eq in E2; subst c; discriminate|].
    reflexivity. }
  rewrite S.
  rewrite (digits_not_special d (lit "inf") 105%N (lit "nf") Hd eq_refl
             eq_refl eq_refl) by (vm_compute; discriminate).
  rewrite (digits_not_special d (lit "infinity") 105%N (lit "nfinity") Hd eq_refl
             eq_refl eq_refl) by (vm_compute; discriminate).
  rewrite (digits_not_special d (lit "nan") 110%N (lit "an") Hd eq_refl
             eq_refl eq_refl) by (vm_compute; discriminate).
  cbn [orb]. rewrite (digits_run_digits d Hall false).
  rewrite app_nil_r.
  destruct (map _ d) as [|v vs] eqn:E.
  - destruct d; [congruence|discriminate].
  - cbn [exponent_of List.length Z.of_nat]. unfold number_of_digits.
    rewrite E. reflexivity.
Qed.

Lemma number_of_digits_nonneg (d : str) : 0 <= number_of_digits d.
Proof.
  unfold number_of_digits. apply digits_value_nonneg.
  apply Forall_forall. intros x Hx. apply in_map_iff in Hx as (c & <- & _).
  destruct (digit_value c) eqn:E; [now apply (digit_value_nonneg c)|lia].
Qed.

Lemma of_decimal_whole (n : Z) :
  0 <= n < 2 ^ 53 -> of_decimal false n 0 = whole_float n.
Proof.
  intros Hn. destruct n as [|p|p]; try lia; [reflexivity|].
  unfold of_decimal. cbn [Z.leb Z.compare Z.pow Z.to_pos].
  change (Z.to_pos (10 ^ 0)) with 1%positive.
  rewrite Pos.mul_1_r. apply of_ratio_whole. lia.
Qed.

(** The conversion of a whole number of ten thousands of yen is exact. *)
Lemma price_of_digits (d : str) :
  digits d -> number_of_digits d * 10000 < 2 ^ 53 ->
  rbind (of_str d) (fun x => rbind (mul_int x 10000) to_int) =
  Ok (number_of_digits d * 10000).
Proof.
  intros Hd Hn. pose proof (number_of_digits_nonneg d) as H0.
  rewrite (of_str_digits d Hd), of_decimal_whole by lia.
  cbn [rbind]. unfold mul_int.
  change (of_int 10000) with (Ok (whole_float 10000)). cbn [rbind].
  destruct (Z.eq_dec (number_of_digits d) 0) as [E|E].
  - rewrite E. reflexivity.
  - rewrite mul_whole by lia. apply to_int_whole. lia.
Qed.

Lemma price_of_whole_text (pre d : str) :
  all_in number_space pre = true -> digits d ->
  number_of_digits d * 10000 < 2 ^ 53 ->
  price_of_text (pre ++ d ++ man_en) = Ok (number_of_digits d * 10000).
Proof.
  intros Hpre Hd Hn. unfold price_of_text.
  rewrite (of_str_lstrip_redundant (crlf_tabs 10) man_en
             (crlf_tabs_white 9) man_en_plain).
  rewrite app_assoc, rstrip_suffix; [|reflexivity|].
  - rewrite of_str_lead by exact Hpre. now apply price_of_digits.
  - apply ends_in_false. intros c Hc. apply in_app_or in Hc as [Hc|Hc].
    + apply man_en_plain. unfold all_in in Hpre.
      rewrite forallb_forall in Hpre. now apply Hpre.
    + destruct Hd as [_ Hd]. apply (digits_plain d c Hd) in Hc as (H1 & H2 & _).
      now apply not_man_en.
Qed.

(** X20.  A rent written as a whole number of ten thousands of yen, with
    white space that [float] skips ([number_space]) before it and the
    suffix after it, is converted exactly:
    for a run of digits that writes [n], with [n * 10000] below [2 ^ 53],
    [scrap_price] caches [n * 10000], and returns it with the monthly fees
    when these are read. *)
Theorem whole_rent_is_exact
    (self : SuumoScrapper) (n : node) (pre d : str) :
  price_element (soup self) = Some n ->
  text n = pre ++ d ++ man_en ->
  all_in number_space pre = true -> digits d ->
  number_of_digits d * 10000 < 2 ^ 53 ->
  price_of_text (text n) = Ok (number_of_digits d * 10000) /\
  fst (fst (scrap_price self)) = with_price self (number_of_digits d * 10000) /\
  (forall b f,
     nth_error (property_data_bodies (soup self)) 0 = Some b ->
     monthly_fees_of_text (text b) = Ok f ->
     snd (scrap_price self) = Ok (number_of_digits d * 10000, f)).
Proof.
  intros He Ht Hpre Hd Hn.
  assert (P : price_of_text (text n) = Ok (number_of_digits d * 10000))
    by (rewrite Ht; now apply price_of_whole_text).
  split; [exact P|].
  rewrite scrap_price_run, He. cbn [not_none rbind]. rewrite P.
  split; [reflexivity|].
  intros b f Hb Hf. rewrite (index_ok _ _ _ Hb). cbn [rbind snd].
  now rewrite Hf.
Qed.

Lemma whole_rent_is_exact_witness :
  let self := {| soup := price_page (CR :: LF :: TAB :: lit "12" ++ man_en)
                           (lit "3000" ++ [YEN]);
                 map_soup := []; monthly_price := 0 |} in
  snd (scrap_price self) = Ok (120000, 3000).
Proof.
  intros self.
  apply (proj2 (proj2 (whole_rent_is_exact self
                  (block "property_view_main-emphasis"
                     (CR :: LF :: TAB :: lit "12" ++ man_en))
                  [CR; LF; TAB] (lit "12")
                  eq_refl eq_refl eq_refl
                  (conj (fun H : lit "12" = [] => eq_ind (lit "12")
                           (fun l => match l with [] => False | _ => True end)
                           I [] H) eq_refl)
                  eq_refl))
           (block "property_data-body" (lit "3000" ++ [YEN])) 3000);
    reflexivity.
Defined.

(** ** No division by zero *)

Lemma shr_1_m (r : shr_record) :
  0 <= shr_m r -> shr_m (shr_1 r) = shr_m r / 2.
Proof.
  intros H. rewrite <- Z.div2_div.
  destruct r as [m rb sb]. simpl in H |- *.
  destruct m as [|[q|q|]|q]; try lia; reflexivity.
Qed.

Lemma shr_iter_m (p : positive) :
  forall r, 0 <= shr_m r ->
    shr_m (iter_pos shr_1 p r) = shr_m r / 2 ^ Zpos p.
Proof.
  assert (N : forall r, 0 <= shr_m r -> 0 <= shr_m (shr_1 r)).
  { intros r H. rewrite shr_1_m by exact H. apply Z.div_pos; lia. }
  induction p as [p IH|p IH|]; intros r Hr; cbn [iter_pos].
  - assert (E : 2 ^ Zpos p~1 = 2 * (2 ^ Zpos p * 2 ^ Zpos p)).
    { rewrite <- Z.pow_add_r, <- Z.pow_succ_r by lia. f_equal. lia. }
    rewrite E.
    rewrite IH, IH, shr_1_m; auto.
    + rewrite !Z.div_div by lia. reflexivity.
    + rewrite IH by auto. apply Z.div_pos; [auto|lia].
  - assert (E : 2 ^ Zpos p~0 = 2 ^ Zpos p * 2 ^ Zpos p).
    { rewrite <- Z.pow_add_r by lia. f_equal. lia. }
    rewrite E, IH, IH; auto.
    + rewrite Z.div_div by lia. reflexivity.
    + rewrite IH by auto. apply Z.div_pos; [auto|lia].
  - rewrite shr_1_m by exact Hr. reflexivity.
Qed.

(** Rounding a positive number above the smallest exponent leaves a
    positive mantissa. *)
Lemma shr_fexp_pos (m e : Z) (l : location) :
  0 < m -> -1074 <= e ->
  0 < shr_m (fst (shr_fexp prec emax m e l)) /\
  e <= snd (shr_fexp prec emax m e l).
Proof.
  intros Hm He. unfold shr_fexp.
  rewrite Zdigits2_log2 by exact Hm.
  pose proof (Z.log2_nonneg m) as L0.
  pose proof (Z.log2_spec m Hm) as [L1 _].
  assert (F : fexp prec emax (Z.log2 m + 1 + e) - e <= Z.log2 m)
    by (unfold fexp, emin, prec, emax; lia).
  assert (M : shr_m (shr_record_of_loc m l) = m)
    by (destruct l as [|[]]; reflexivity).
  unfold shr.
  destruct (fexp prec emax (Z.log2 m + 1 + e) - e) as [|j|j] eqn:E;
    cbn [fst snd]; rewrite ?M; try (split; lia).
  rewrite shr_iter_m by (rewrite M; lia). rewrite M. split; [|lia].
  apply Z.div_str_pos. split; [lia|].
  apply Z.le_trans with (2 ^ Z.log2 m); [|exact L1].
  apply Z.pow_le_mono_r; lia.
Qed.

Lemma round_nearest_even_pos (m : Z) (l : location) :
  0 < m -> 0 < round_nearest_even m l.
Proof.
  intros H. destruct l as [|[]]; cbn [round_nearest_even]; try lia.
  destruct (Z.even m); lia.
Qed.

Lemma binary_round_aux_nonzero (sx : bool) (m e : Z) (l : location) :
  0 < m -> -1074 <= e ->
  is_zero (binary_round_aux prec emax sx m e l) = false.
Proof.
  intros Hm He. unfold binary_round_aux.
  destruct (shr_fexp_pos m e l Hm He) as [P1 E1].
  destruct (shr_fexp prec emax m e l) as [mrs' e']. cbn [fst snd] in P1, E1.
  pose proof (round_nearest_even_pos (shr_m mrs') (loc_of_shr_record mrs') P1)
    as P2.
  destruct (shr_fexp_pos _ e' loc_Exact P2 ltac:(lia)) as [P3 _].
  destruct (shr_fexp prec emax _ e' loc_Exact) as [mrs'' e''].
  cbn [fst] in P3.
  destruct (shr_m mrs''); try lia.
  destruct (e'' <=? emax - prec); reflexivity.
Qed.

(** The float of an integer other than zero is not zero. *)
Lemma of_int_nonzero (n : Z) (y : float) :
  n <> 0 -> of_int n = Ok y -> is_zero y = false.
Proof.
  intros Hn. unfold of_int.
  assert (Z0 : is_zero (binary_normalize prec emax n 0 false) = false).
  { assert (B : forall sx p, is_zero (binary_round prec emax sx p 0) = false).
    { intros sx p. unfold binary_round, shl_align.
      assert (F : -1074 <= fexp prec emax (Zpos (digits2_pos p) + 0))
        by (unfold fexp, emin, prec, emax; lia).
      destruct (fexp prec emax (Zpos (digits2_pos p) + 0) - 0) eqn:E;
        apply binary_round_aux_nonzero; lia. }
    destruct n as [|p|p]; [congruence|apply B|apply B]. }
  destruct (binary_normalize prec emax n 0 false); try discriminate;
    intros H; inversion H; subst; exact Z0.
Qed.

(** X21.  [scrap_other_fees] never raises [ZeroDivisionError], whatever
    the cached rent and the page: it raises nothing but [IndexError],
    [AttributeError], [ValueError] and [OverflowError]. *)
Theorem scrap_other_fees_exceptions (self : SuumoScrapper) (e : exn) :
  snd (scrap_other_fees self) = Raise e ->
  e = IndexError \/ e = AttributeError \/ e = ValueError \/ e = OverflowError.
Proof.
  assert (D : forall x, x <> ZeroDivisionError ->
            x = IndexError \/ x = AttributeError \/ x = ValueError \/
            x = OverflowError).
  { intros x Hx. destruct x; auto. congruence. }
  destruct (one_time_fees (soup self)) as [fees|e0] eqn:E.
  - rewrite (scrap_other_fees_run self fees E).
    destruct (monthly_price self =? 0) eqn:Z0; [discriminate|].
    apply Z.eqb_neq in Z0. cbn [snd].
    unfold months_of, mul_int, truediv_int.
    change (of_int 10000) with (Ok (whole_float 10000)). cbn [rbind].
    destruct (of_int (monthly_price self)) as [r|e1] eqn:E2.
    + cbn [rbind]. rewrite (of_int_nonzero _ _ Z0 E2). discriminate.
    + cbn [rbind]. intros H; inversion H; subst.
      unfold of_int in E2.
      destruct (binary_normalize _ _ _ _ _); inversion E2. auto.
  - unfold scrap_other_fees, bind, get_self, lift. rewrite E. cbn [snd].
    intros H; inversion H; subst. apply D.
    now apply (one_time_fees_raises (soup self)).
Qed.

Lemma scrap_other_fees_exceptions_witness :
  IndexError = IndexError \/ IndexError = AttributeError \/
  IndexError = ValueError \/ IndexError = OverflowError.
Proof.
  apply (scrap_other_fees_exceptions (sample [lit "-"] 7) IndexError).
  reflexivity.
Defined.

(* ================================================================== *)
(** * Whole amounts and the fees in months                               *)
(* ================================================================== *)











